(** * golangci-lint-langserver: the lint pipeline of [handler.go]

    A shallow embedding of the handler of the language server: the
    severity mapping, the conversion of an error into a diagnostic, the
    command builder, the result parser, the diagnostic mapper and the
    initialization of the session, followed by the properties the
    specification states about them; then the worker loop, the document
    handlers on the request channel, and the [Close] methods of
    [main.go] and [lsp.go], with the properties the code shows.

    [handler.go] holds two revisions of the handler.  The embedding
    follows the first one.  The second has the same [errToDiagnostics],
    [SeverityFromString], [lint], [diagnosticMessage], [linter] and
    [Shutdown] up to the names of the protocol constants; its
    [Initialize] passes the folder URI through [uri.New] and returns other
    synchronisation options, and its [DidChange] is not implemented.

    Conventions.
    - A Go [string] and a [[]byte] are sequences of bytes: [string] of the
      Standard Library ([ascii] is a byte).
    - A Go [int] is 64 bits wide, as on the 64-bit platforms the server
      is built for; it is a [Z] and every operation that can leave the
      range writes its wrap-around out.  A [uint32] is a [Z] reduced modulo
      [2^32].
    - File paths are POSIX paths: the separator is the slash and there is
      no volume name.
    - A slice that the code compares with [nil] is an [option (list _)].
    - A run-time panic is the [Panic] outcome of the [outcome] monad. *)

From Stdlib Require Import ZArith List String Ascii Bool Arith Lia.
Import ListNotations.

Set Implicit Arguments.
#[local] Set Warnings "-register-all".

(* ================================================================== *)
(** ** The Go run time: panics, integers, strings *)

Module Go.

Inductive outcome (A : Type) : Type :=
| Ret (a : A)
| Panic (reason : string).

Arguments Ret {A} a.
Arguments Panic {A} reason.

Definition bind {A B : Type} (m : outcome A) (k : A -> outcome B) : outcome B :=
  match m with
  | Ret a => k a
  | Panic r => Panic r
  end.

Definition panics {A : Type} (m : outcome A) : Prop :=
  exists r, m = Panic r.

(** [int]: two's complement on 64 bits. *)
Definition int_min : Z := - 2 ^ 63.
Definition int_max : Z := 2 ^ 63 - 1.

Definition wrap_int (z : Z) : Z := (z + 2 ^ 63) mod 2 ^ 64 - 2 ^ 63.

Definition int_sub (a b : Z) : Z := wrap_int (a - b).

(** The conversion [uint32(x)] of an [int]. *)
Definition uint32 (z : Z) : Z := z mod 2 ^ 32.

(** The builtin [max] on two [int]s. *)
Definition max (a b : Z) : Z := if (a <? b)%Z then b else a.

(** [s[n:]]: panics when [n] is beyond the length. *)
Definition slice_from (s : string) (n : nat) : outcome string :=
  if (n <=? String.length s)%nat
  then Ret (substring n (String.length s - n) s)
  else Panic "slice bounds out of range".

(** [l[1:]] and [l[0]] on a slice of strings; a nil slice has length 0. *)
Definition elems {A : Type} (l : option (list A)) : list A :=
  match l with
  | Some xs => xs
  | None => []
  end.

Definition slice_tail {A : Type} (l : option (list A)) : outcome (list A) :=
  match elems l with
  | [] => Panic "slice bounds out of range [1:0]"
  | _ :: xs => Ret xs
  end.

Definition index0 {A : Type} (l : list A) : outcome A :=
  match l with
  | [] => Panic "index out of range [0] with length 0"
  | x :: _ => Ret x
  end.

(** [strings.HasPrefix]. *)
Definition HasPrefix (s p : string) : bool := String.prefix p s.

(** [os.IsPathSeparator] on a POSIX system. *)
Definition IsPathSeparator (c : ascii) : bool := Ascii.eqb c "/".

Definition byte_at (s : string) (i : nat) : ascii :=
  match String.get i s with
  | Some c => c
  | None => zero
  end.

(** [filepath.Split]: the loop walks back from the end of the path to the
    last separator; [scan_sep path n] is [i+1] for the [i] the loop stops
    at, started at [i = n-1].  The volume name is empty on POSIX. *)
Fixpoint scan_sep (path : string) (n : nat) : nat :=
  match n with
  | O => O
  | S i => if IsPathSeparator (byte_at path i) then S i else scan_sep path i
  end.

Definition filepath_Split (path : string) : string * string :=
  let n := scan_sep path (String.length path) in
  (substring 0 n path, substring n (String.length path - n) path).

(** [filepath.Base]: the last element of the path, after the trailing
    separators are dropped; a dot for the empty path and one separator
    for a path of separators only.  [strip_sep path n] is the length left
    when the first loop stops, started at length [n]. *)
Fixpoint strip_sep (path : string) (n : nat) : nat :=
  match n with
  | O => O
  | S i => if IsPathSeparator (byte_at path i) then strip_sep path i else S i
  end.

Definition filepath_Base (path : string) : string :=
  if String.eqb path EmptyString then "."%string
  else
    let n := strip_sep path (String.length path) in
    let stripped := substring 0 n path in
    let i := scan_sep stripped n in
    let last := substring i (n - i) stripped in
    if String.eqb last EmptyString then "/"%string else last.

(** The path [exec.Command] stores in [cmd.Path]: the name, replaced by
    what [LookPath] resolves it to when the name is a bare file name and
    the lookup returns a path.  [LookPath] returns the empty string when
    it finds nothing. *)
Definition commandPath (LookPath : string -> string) (name : string) : string :=
  if String.eqb (filepath_Base name) name
  then let lp := LookPath name in
       if String.eqb lp EmptyString then name else lp
  else name.

(** [bytes.Split(b, sep)] for a separator of one byte: the segments
    between the separators, in order; an input without separator is its
    own single segment. *)
Fixpoint bytes_Split (b : string) (sep : ascii) : list string :=
  match b with
  | EmptyString => [EmptyString]
  | String c rest =>
      if Ascii.eqb c sep then EmptyString :: bytes_Split rest sep
      else match bytes_Split rest sep with
           | seg :: segs => String c seg :: segs
           | [] => [String c EmptyString]
           end
  end.

Definition newline : ascii := ascii_of_nat 10.

(** [strings.ToLower].  An input of ASCII bytes only takes the fast path:
    it is returned as it is when it has no upper-case letter and rebuilt
    with every ['A'..'Z'] shifted by ['a' - 'A'] otherwise.  Any other
    input goes through [strings.Map(unicode.ToLower, s)], which is the
    library's Unicode table and is a parameter here. *)
Definition RuneSelf : nat := 128.

Definition isUpperByte (c : ascii) : bool :=
  (nat_of_ascii "A" <=? nat_of_ascii c)%nat && (nat_of_ascii c <=? nat_of_ascii "Z")%nat.

Fixpoint isASCII (s : string) : bool :=
  match s with
  | EmptyString => true
  | String c rest => (nat_of_ascii c <? RuneSelf)%nat && isASCII rest
  end.

Fixpoint hasUpper (s : string) : bool :=
  match s with
  | EmptyString => false
  | String c rest => isUpperByte c || hasUpper rest
  end.

Definition lowerByte (c : ascii) : ascii :=
  if isUpperByte c
  then ascii_of_nat (nat_of_ascii c + (nat_of_ascii "a" - nat_of_ascii "A"))
  else c.

Fixpoint lowerBytes (s : string) : string :=
  match s with
  | EmptyString => EmptyString
  | String c rest => String (lowerByte c) (lowerBytes rest)
  end.

Definition ToLower (unicode_ToLower : string -> string) (s : string) : string :=
  if isASCII s
  then if negb (hasUpper s) then s else lowerBytes s
  else unicode_ToLower s.

End Go.

Notation "x <- m ;; k" := (Go.bind m (fun x => k))
  (at level 61, m at next level, right associativity).
Notation "' p <- m ;; k" := (Go.bind m (fun x => match x with p => k end))
  (at level 61, p pattern, m at next level, right associativity).

Import Go.

(* ================================================================== *)
(** ** Data model *)

(** [uri.URI] and [protocol.DocumentURI] are both named string types. *)
Definition URI : Type := string.
Definition DocumentURI : Type := string.

(** The errors the handler inspects.  [errToDiagnostics] distinguishes an
    [*exec.ExitError], which carries the captured standard error besides
    its own text (the exit status), from every other error. *)
Inductive error : Type :=
| ExitError (Stderr : string) (status : string)
| OtherError (msg : string).

(** The method [Error()] of a non-nil error. *)
Definition error_Error (e : error) : string :=
  match e with
  | ExitError _ status => status
  | OtherError msg => msg
  end.

Module Position.
Record t : Type := { Line : Z; Character : Z }.
End Position.

Module Range.
Record t : Type := { Start : Position.t; End : Position.t }.
End Range.

Inductive DiagnosticSeverity : Type :=
| ErrorDiagnosticSeverity
| WarningDiagnosticSeverity
| InformationDiagnosticSeverity
| HintDiagnosticSeverity.

(** [protocol.Diagnostic]: the fields the handler sets.  The others
    (code, tags, related information, data) keep their zero value in every
    diagnostic the handler builds. *)
Module Diagnostic.
Record t : Type := {
  Range : Range.t;
  Severity : DiagnosticSeverity;
  Source : string;
  Message : string
}.
End Diagnostic.

Definition zeroPosition : Position.t :=
  {| Position.Line := 0; Position.Character := 0 |}.
Definition zeroRange : Range.t :=
  {| Range.Start := zeroPosition; Range.End := zeroPosition |}.

(** [Issue] and [Result], as the JSON decoder fills them.  [Replacement],
    [LineRange] and the two [ExpectNoLint] fields are decoded and never
    read. *)
Module Pos.
Record t : Type := { Filename : string; Offset : Z; Line : Z; Column : Z }.
End Pos.

Module Issue.
Record t : Type := {
  FromLinter : string;
  Text : string;
  Severity : string;
  SourceLines : list string;
  Pos : Pos.t
}.
End Issue.

Module Linter.
Record t : Type := { Name : string; Enabled : bool; EnabledByDefault : bool }.
End Linter.

Module Result.
Record t : Type := { Issues : list Issue.t; Report : list Linter.t }.
End Result.

(** [*exec.Cmd] as [exec.Command] and the handler fill it: [Path] is
    the name or the path the name was resolved to, and [Args] holds the
    command name followed by the arguments.  The error of the lookup is
    kept in the command and is what [Output] returns: it is part of what
    the platform answers for the command. *)
Record Cmd : Type := { Path : string; Args : list string; Dir : string }.

Definition exec_Command (LookPath : string -> string) (name : string)
    (arg : list string) : Cmd :=
  {| Path := commandPath LookPath name; Args := name :: arg; Dir := EmptyString |}.

Definition with_Dir (cmd : Cmd) (dir : string) : Cmd :=
  {| Path := Path cmd; Args := Args cmd; Dir := dir |}.

(** A value of the empty interface [any], by its dynamic type.  A JSON
    decoder produces [any_nil], [any_bool], [any_number], [any_string],
    [any_slice] (a [[]any]) and [any_map] (a [map[string]any]); a
    [[]string] is what a Go caller can store directly. *)
Inductive any : Type :=
| any_nil
| any_bool (b : bool)
| any_number (n : Z)
| any_string (s : string)
| any_slice (l : list any)
| any_map (m : list (string * any))
| any_strings (l : option (list string)).

(** [m[k]] on a [map[string]any]: the zero value [nil] for a missing key. *)
Fixpoint map_index (m : list (string * any)) (k : string) : any :=
  match m with
  | [] => any_nil
  | (k', v) :: m' => if String.eqb k' k then v else map_index m' k
  end.

Module WorkspaceFolder.
Record t : Type := { URI : URI; Name : string }.
End WorkspaceFolder.

Module InitializeParams.
Record t : Type := {
  WorkspaceFolders : list WorkspaceFolder.t;
  InitializationOptions : any
}.
End InitializeParams.

(** The part of [protocol.InitializeResult] that [Initialize] fills: the
    document synchronisation options and the name of the server. *)
Module InitializeResult.
Record t : Type := {
  OpenClose : bool;
  IncrementalChange : bool;
  SaveIncludeText : bool;
  ServerInfoName : string
}.
End InitializeResult.

(** The session state of [handler]; the connection, the logger and the
    request channel are not part of the data the lint pipeline computes
    with. *)
Record handler : Type := {
  noLinterName : bool;
  command : option (list string);
  rootURI : URI;
  rootDir : URI
}.

(** What the handler takes from its libraries and from the operating
    system, as it stands during one lint cycle. *)
Record Platform : Type := {
  (** [uri.New] *)
  uri_New : string -> URI;
  (** [URI.Filename]: panics on a URI that is not a file URI *)
  uri_Filename : URI -> outcome string;
  (** [strings.Map(unicode.ToLower, s)], reached on input that is not ASCII *)
  unicode_ToLower : string -> string;
  (** [exec.LookPath]: the resolved path, empty when none is found *)
  exec_LookPath : string -> string;
  (** [Output] of [exec.Cmd]: the captured standard output and the error *)
  cmd_Output : Cmd -> string * option error;
  (** [sonic.ConfigFastest.Unmarshal] into a zero [Result]: the decoded
      value, or the message of the decoder's error (an error of the
      decoder's own types, never an [*exec.ExitError]) *)
  sonic_Unmarshal : string -> Result.t + string
}.

(* ================================================================== *)
(** ** The handler *)

Definition NewServer (noLinterName : bool) : handler :=
  {| noLinterName := noLinterName;
     command := None;
     rootURI := EmptyString;
     rootDir := EmptyString |}.

Definition defaultCommand : list string :=
  ["golangci-lint"; "run"; "--out-format"; "json"]%string.

Section Handler.

Variable P : Platform.

(** [errToDiagnostics]: the type switch has no case for a nil error, so
    nil reaches the default branch, where [e.Error()] dereferences it. *)
Definition errToDiagnostics (h : handler) (err : option error)
  : outcome (list Diagnostic.t) :=
  message <-
    match err with
    | Some (ExitError Stderr _) => Ret Stderr
    | Some e => Ret (error_Error e)
    | None => Panic "invalid memory address or nil pointer dereference"
    end ;;
  Ret [ {| Diagnostic.Range := zeroRange;
           Diagnostic.Severity := ErrorDiagnosticSeverity;
           Diagnostic.Source := EmptyString;
           Diagnostic.Message := message |} ].

Definition SeverityFromString (h : handler) (severity : string)
  : DiagnosticSeverity :=
  let s := ToLower (unicode_ToLower P) severity in
  if String.eqb s "error" then ErrorDiagnosticSeverity
  else if String.eqb s "warning" then WarningDiagnosticSeverity
  else if String.eqb s "information" then InformationDiagnosticSeverity
  else if String.eqb s "hint" then HintDiagnosticSeverity
  else WarningDiagnosticSeverity.

(** [fmt.Sprintf("%s: %s", issue.FromLinter, issue.Text)] unless the
    linter name is switched off. *)
Definition diagnosticMessage (h : handler) (issue : Issue.t) : string :=
  if noLinterName h then Issue.Text issue
  else (Issue.FromLinter issue ++ ": " ++ Issue.Text issue)%string.

(** The first part of [lint]: the command, its working directory and the
    file name the issues are filtered by.  [Filename] is a pure method:
    each of its repeated calls in the source is one binding here. *)
Definition lint_cmd (h : handler) (docURI : DocumentURI)
  : outcome (Cmd * string) :=
  let path := uri_New P docURI in
  pathname <- uri_Filename P path ;;
  let '(dir, file) := filepath_Split pathname in
  fixed <- slice_tail (command h) ;;
  let args := (fixed ++ [dir])%list in
  name <- index0 (elems (command h)) ;;
  let cmd := exec_Command (exec_LookPath P) name args in
  rootname <- uri_Filename P (rootDir h) ;;
  if HasPrefix pathname rootname then
    file' <- slice_from pathname (String.length rootname + 1) ;;
    Ret (with_Dir cmd rootname, file')
  else
    Ret (with_Dir cmd dir, file).

(** The body of the loop over the issues, for an issue that passed the
    filter. *)
Definition issuePosition (issue : Issue.t) : Position.t :=
  {| Position.Line :=
       uint32 (max (int_sub (Pos.Line (Issue.Pos issue)) 1) 0);
     Position.Character :=
       uint32 (max (int_sub (Pos.Column (Issue.Pos issue)) 1) 0) |}.

Definition issueDiagnostic (h : handler) (issue : Issue.t) : Diagnostic.t :=
  {| Diagnostic.Range :=
       {| Range.Start := issuePosition issue;
          Range.End := issuePosition issue |};
     Diagnostic.Severity := SeverityFromString h (Issue.Severity issue);
     Diagnostic.Source := Issue.FromLinter issue;
     Diagnostic.Message := diagnosticMessage h issue |}.

(** The loop [for _, issue := range result.Issues], with the slice it
    appends to. *)
Fixpoint lint_issues (h : handler) (file : string) (issues : list Issue.t)
    (diagnostics : list Diagnostic.t) : list Diagnostic.t :=
  match issues with
  | [] => diagnostics
  | issue :: rest =>
      if negb (String.eqb file (Pos.Filename (Issue.Pos issue)))
      then lint_issues h file rest diagnostics
      else lint_issues h file rest (diagnostics ++ [issueDiagnostic h issue])
  end.

(** The second part of [lint]: from the captured output and the error of
    the process to the diagnostics. *)
Definition lint_output (h : handler) (file : string) (b : string)
    (err : option error) : outcome (list Diagnostic.t * option error) :=
  if (String.length b =? 0)%nat then
    ds <- errToDiagnostics h err ;;
    Ret (ds, None)
  else
    let data := bytes_Split b newline in
    first <- index0 data ;;
    match sonic_Unmarshal P first with
    | inr msg =>
        ds <- errToDiagnostics h (Some (OtherError msg)) ;;
        Ret (ds, None)
    | inl result =>
        Ret (lint_issues h file (Result.Issues result) [], None)
    end.

Definition lint (h : handler) (docURI : DocumentURI)
  : outcome (list Diagnostic.t * option error) :=
  ' (cmd, file) <- lint_cmd h docURI ;;
  let '(b, err) := cmd_Output P cmd in
  lint_output h file b err.

(** [Initialize]: the handler after the call and the result, or the panic
    of the unchecked index or of the unchecked type assertion. *)
Definition Initialize (h : handler) (params : InitializeParams.t)
  : outcome (handler * InitializeResult.t) :=
  folder <- index0 (InitializeParams.WorkspaceFolders params) ;;
  let h := {| noLinterName := noLinterName h;
              command := command h;
              rootURI := WorkspaceFolder.URI folder;
              rootDir := WorkspaceFolder.URI folder |} in
  initOptions <-
    match InitializeParams.InitializationOptions params with
    | any_map m => Ret m
    | _ => Panic "interface conversion: interface {} is not map[string]interface {}"
    end ;;
  let h :=
    match map_index initOptions "command" with
    | any_strings command' =>
        {| noLinterName := noLinterName h;
           command := command';
           rootURI := rootURI h;
           rootDir := rootDir h |}
    | _ => h
    end in
  let h :=
    match command h with
    | None =>
        {| noLinterName := noLinterName h;
           command := Some defaultCommand;
           rootURI := rootURI h;
           rootDir := rootDir h |}
    | Some _ => h
    end in
  Ret (h, {| InitializeResult.OpenClose := true;
             InitializeResult.IncrementalChange := true;
             InitializeResult.SaveIncludeText := true;
             InitializeResult.ServerInfoName := "golangci-lint-langserver" |}).

End Handler.

(* ================================================================== *)
(** ** Vocabulary of the properties *)

(** The diagnostic of the failure paths: error severity, no source, the
    zero range. *)
Definition failureDiagnostic (message : string) : Diagnostic.t :=
  {| Diagnostic.Range := zeroRange;
     Diagnostic.Severity := ErrorDiagnosticSeverity;
     Diagnostic.Source := EmptyString;
     Diagnostic.Message := message |}.

(** The text [errToDiagnostics] reports for a non-nil error. *)
Definition capturedText (e : error) : string :=
  match e with
  | ExitError Stderr _ => Stderr
  | OtherError msg => msg
  end.

(** The filter of the loop, as a predicate on issues. *)
Definition reportedFor (file : string) (issue : Issue.t) : bool :=
  String.eqb file (Pos.Filename (Issue.Pos issue)).

(** The first segment of a captured output: the bytes before its first
    newline, all of it when it has none. *)
Definition firstSegment (b : string) : string :=
  hd EmptyString (bytes_Split b newline).

(** The mapping in the words of the specification: the severity string is
    compared with each of the four names letter by letter, a letter of
    the name matching itself and its upper-case form; a string that is
    none of the names is a warning. *)
Definition isLowerByte (k : ascii) : bool :=
  (nat_of_ascii "a" <=? nat_of_ascii k)%nat && (nat_of_ascii k <=? nat_of_ascii "z")%nat.

Definition upperOf (k : ascii) : ascii :=
  if isLowerByte k then ascii_of_nat (nat_of_ascii k - 32) else k.

Definition sameLetter (c k : ascii) : bool :=
  Ascii.eqb c k || Ascii.eqb c (upperOf k).

Fixpoint matchesIgnoringCase (s name : string) : bool :=
  match s, name with
  | EmptyString, EmptyString => true
  | String c s', String k name' => sameLetter c k && matchesIgnoringCase s' name'
  | _, _ => false
  end.

Definition severityOfName (s : string) : DiagnosticSeverity :=
  if matchesIgnoringCase s "error" then ErrorDiagnosticSeverity
  else if matchesIgnoringCase s "warning" then WarningDiagnosticSeverity
  else if matchesIgnoringCase s "information" then InformationDiagnosticSeverity
  else if matchesIgnoringCase s "hint" then HintDiagnosticSeverity
  else WarningDiagnosticSeverity.

Definition allBytes : list ascii := map ascii_of_nat (seq 0 256).

(* ================================================================== *)
(** ** The scenarios of the specification *)

Module Scenario.

#[local] Open Scope string_scope.

(** File URIs without escapes, as the URI library reads them: [uri.New]
    keeps a string that starts with the file scheme and makes a file URI
    of any other; [Filename] is the path after the scheme. *)
Definition fileScheme : string := "file://".

Definition file_uri_New (s : string) : URI :=
  if String.prefix fileScheme s then s else (fileScheme ++ s)%string.

Definition file_uri_Filename (u : URI) : outcome string :=
  if String.prefix fileScheme u
  then Ret (substring 7 (String.length u - 7) u)
  else Panic "only file URIs are supported".

(** A platform whose process returns [output] and whose decoder knows one
    line, [report], as the encoding of [result]; the one program on its
    search path is [lint]. *)
Definition platform (output : string * option error) (report : string)
    (result : Result.t) : Platform :=
  {| uri_New := file_uri_New;
     uri_Filename := file_uri_Filename;
     unicode_ToLower := fun s => s;
     exec_LookPath := fun name =>
       if String.eqb name "lint" then "/usr/local/bin/lint" else EmptyString;
     cmd_Output := fun _ => output;
     sonic_Unmarshal := fun segment =>
       if String.eqb segment report then inl result
       else inr "invalid character looking for beginning of value"%string |}.

Definition session : handler :=
  {| noLinterName := false;
     command := Some ["lint"; "--format"; "json"]%string;
     rootURI := "file:///proj";
     rootDir := "file:///proj" |}.

Definition a_go : DocumentURI := "file:///proj/pkg/a.go".

Definition issueAt (file : string) (line column : Z) : Issue.t :=
  {| Issue.FromLinter := "x";
     Issue.Text := "unused var";
     Issue.Severity := "warning";
     Issue.SourceLines := [];
     Issue.Pos := {| Pos.Filename := file; Pos.Offset := 0;
                     Pos.Line := line; Pos.Column := column |} |}.

Definition pointAt (line character : Z) : Range.t :=
  {| Range.Start := {| Position.Line := line; Position.Character := character |};
     Range.End := {| Position.Line := line; Position.Character := character |} |}.

Definition unusedVar (line character : Z) : Diagnostic.t :=
  {| Diagnostic.Range := pointAt line character;
     Diagnostic.Severity := WarningDiagnosticSeverity;
     Diagnostic.Source := "x";
     Diagnostic.Message := "x: unused var" |}.

Definition result : Result.t :=
  {| Result.Issues := [issueAt "pkg/b.go" 4 1; issueAt "pkg/a.go" 10 3;
                       issueAt "pkg/b.go" 7 2; issueAt "pkg/a.go" 1 1];
     Result.Report := [] |}.

(** The output of a run that found issues: the report on the first line,
    a summary after it, and the exit status of the linter. *)
Definition found : string * option error :=
  (("report" ++ String newline "4 issues.")%string,
   Some (ExitError EmptyString "exit status 1")).

Definition failed : string * option error :=
  (EmptyString, Some (ExitError "config error: no .golangci.yml" "exit status 2")).

Definition silent : string * option error := (EmptyString, None).

Definition garbled : string * option error :=
  (("level=error" ++ String newline "report")%string, None).

Definition command_a : Cmd :=
  {| Path := "/usr/local/bin/lint";
     Args := ["lint"; "--format"; "json"; "/proj/pkg/"]%string;
     Dir := "/proj" |}.

End Scenario.

(* ================================================================== *)
(** ** The worker, the request channel and the streams *)

(** One request the worker receives from the channel, with the state it
    is linted in: the session fields as they are at that moment, what the
    libraries and the operating system answer during the cycle, and what
    [Conn.Notify] returns for the notification. *)
Record Cycle : Type := {
  cycle_uri : DocumentURI;
  cycle_session : handler;
  cycle_platform : Platform;
  cycle_Notify : DocumentURI -> list Diagnostic.t -> option error
}.

(** How a run of the worker ends: the channel is closed and the loop
    breaks, [logger.Fatal] logs and exits the process, or a panic of
    [lint] takes the process down. *)
Inductive WorkerEnd : Type :=
| ChannelClosed
| FatalExit (msg : string)
| WorkerPanic (reason : string).

(** [linter]: the loop over the values received until the channel is
    closed.  The result is the list of the notifications that were
    delivered, in order, each with its URI and its diagnostics, and the
    way the loop ended. *)
Fixpoint linter (received : list Cycle)
  : list (DocumentURI * list Diagnostic.t) * WorkerEnd :=
  match received with
  | [] => ([], ChannelClosed)
  | c :: rest =>
      let u := cycle_uri c in
      match lint (cycle_platform c) (cycle_session c) u with
      | Panic reason => ([], WorkerPanic reason)
      | Ret (_, Some _) => ([], FatalExit "diagnostics")
      | Ret (diagnostics, None) =>
          match cycle_Notify c u diagnostics with
          | Some _ => ([], FatalExit "notify")
          | None =>
              let '(published, ending) := linter rest in
              ((u, diagnostics) :: published, ending)
          end
      end
  end.

(** The request channel, seen from the handlers: whether it was closed,
    and the values handed to the receiver so far, in order.  A send on
    the unbuffered channel returns once the worker has taken the value; a
    send or a close on a closed channel panics. *)
Record Chan : Type := { chan_closed : bool; chan_sent : list DocumentURI }.

(** [make(chan protocol.DocumentURI)] in [NewServer]. *)
Definition newRequest : Chan := {| chan_closed := false; chan_sent := [] |}.

Definition chan_send (ch : Chan) (u : DocumentURI) : outcome Chan :=
  if chan_closed ch then Panic "send on closed channel"
  else Ret {| chan_closed := false; chan_sent := (chan_sent ch ++ [u])%list |}.

Definition chan_close (ch : Chan) : outcome Chan :=
  if chan_closed ch then Panic "close of closed channel"
  else Ret {| chan_closed := true; chan_sent := chan_sent ch |}.

(** The document handlers and [Shutdown]: the channel after the call and
    the error returned, which is nil in all of them. *)
Definition DidOpenTextDocument (request : Chan) (u : DocumentURI)
  : outcome (Chan * option error) :=
  ch <- chan_send request u ;; Ret (ch, None).

Definition DidSaveTextDocument (request : Chan) (u : DocumentURI)
  : outcome (Chan * option error) :=
  ch <- chan_send request u ;; Ret (ch, None).

Definition WillSaveTextDocument (request : Chan) (u : DocumentURI)
  : outcome (Chan * option error) :=
  ch <- chan_send request u ;; Ret (ch, None).

Definition DidChangeTextDocument (request : Chan) (u : DocumentURI)
  : outcome (Chan * option error) :=
  ch <- chan_send request u ;; Ret (ch, None).

Definition Shutdown (request : Chan) : outcome (Chan * option error) :=
  ch <- chan_close request ;; Ret (ch, None).

(** The calls the transport makes on the handler, one after the other. *)
Inductive Call : Type :=
| CallDidOpen (u : DocumentURI)
| CallDidSave (u : DocumentURI)
| CallWillSave (u : DocumentURI)
| CallDidChange (u : DocumentURI)
| CallShutdown.

Definition serve (request : Chan) (call : Call) : outcome (Chan * option error) :=
  match call with
  | CallDidOpen u => DidOpenTextDocument request u
  | CallDidSave u => DidSaveTextDocument request u
  | CallWillSave u => WillSaveTextDocument request u
  | CallDidChange u => DidChangeTextDocument request u
  | CallShutdown => Shutdown request
  end.

Fixpoint serveAll (request : Chan) (calls : list Call) : outcome Chan :=
  match calls with
  | [] => Ret request
  | call :: rest =>
      ' (ch, _) <- serve request call ;;
      serveAll ch rest
  end.

(** The URI a call submits, if it submits one. *)
Definition submitted (call : Call) : option DocumentURI :=
  match call with
  | CallDidOpen u | CallDidSave u | CallWillSave u | CallDidChange u => Some u
  | CallShutdown => None
  end.

(** The files the server closes, and which of them are closed. *)
Inductive File : Type := Stdin | Stdout | LogFile.

Record Files : Type := {
  stdin_closed : bool;
  stdout_closed : bool;
  logfile_closed : bool
}.

Definition is_closed (w : Files) (f : File) : bool :=
  match f with
  | Stdin => stdin_closed w
  | Stdout => stdout_closed w
  | LogFile => logfile_closed w
  end.

Definition set_closed (w : Files) (f : File) : Files :=
  match f with
  | Stdin => {| stdin_closed := true; stdout_closed := stdout_closed w;
                logfile_closed := logfile_closed w |}
  | Stdout => {| stdin_closed := stdin_closed w; stdout_closed := true;
                 logfile_closed := logfile_closed w |}
  | LogFile => {| stdin_closed := stdin_closed w; stdout_closed := stdout_closed w;
                  logfile_closed := true |}
  end.

Definition ErrClosed : error := OtherError "file already closed".
Definition ErrInvalid : error := OtherError "invalid argument".

(** [Close] of an [*os.File]: a nil file is an invalid argument, a file
    that was closed before reports that it is closed already, and any
    other file is closed whatever the system call returns, which is
    [close_error f]. *)
Definition File_Close (close_error : File -> option error) (f : option File)
    (w : Files) : Files * option error :=
  match f with
  | None => (w, Some ErrInvalid)
  | Some file =>
      if is_closed w file then (w, Some ErrClosed)
      else (set_closed w file, close_error file)
  end.

(** [stdrwc.Close] of [main.go]. *)
Definition stdrwc_Close (close_error : File -> option error) (w : Files)
  : Files * option error :=
  let '(w1, err) := File_Close close_error (Some Stdin) w in
  match err with
  | Some e => (w1, Some e)
  | None => File_Close close_error (Some Stdout) w1
  end.

(** [errors.Join]: nil when every error is nil, and otherwise an error
    whose text is the texts of the non-nil errors, one on each line. *)
Fixpoint joinedText (errs : list error) : string :=
  match errs with
  | [] => EmptyString
  | [e] => error_Error e
  | e :: rest => (error_Error e ++ String newline (joinedText rest))%string
  end.

Fixpoint nonNil (errs : list (option error)) : list error :=
  match errs with
  | [] => []
  | Some e :: rest => e :: nonNil rest
  | None :: rest => nonNil rest
  end.

Definition errors_Join (errs : list (option error)) : option error :=
  match nonNil errs with
  | [] => None
  | es => Some (OtherError (joinedText es))
  end.

(** [readWriteCloser] of [lsp.go]: the log file, which may be nil, and
    the [Close] methods of the reader and of the writer. *)
Record readWriteCloser : Type := {
  f : option File;
  readCloser : Files -> Files * option error;
  writeCloser : Files -> Files * option error
}.

(** [readWriteCloser.Close]: the three calls are the arguments of
    [errors.Join] and are made from left to right. *)
Definition readWriteCloser_Close (close_error : File -> option error)
    (r : readWriteCloser) (w : Files) : Files * option error :=
  let '(w1, e1) := readCloser r w in
  let '(w2, e2) := writeCloser r w1 in
  let '(w3, e3) := File_Close close_error (f r) w2 in
  (w3, errors_Join [e1; e2; e3]).

(** The stream [run] builds: [NewConn(rwc, rwc)] with the one [stdrwc]
    as reader and as writer, and the log file [NewConn] created. *)
Definition runStream (close_error : File -> option error) : readWriteCloser :=
  {| f := Some LogFile;
     readCloser := stdrwc_Close close_error;
     writeCloser := stdrwc_Close close_error |}.

(* ================================================================== *)
(** ** Facts about the run-time functions *)

Module GoFacts.

Lemma length_append (s t : string) :
  String.length (s ++ t) = String.length s + String.length t.
Proof.
  induction s as [|c s IH]; simpl; [reflexivity | now rewrite IH].
Qed.

Lemma substring_all (s : string) : substring 0 (String.length s) s = s.
Proof.
  induction s as [|c s IH]; simpl; [reflexivity | now rewrite IH].
Qed.

Lemma substring_skip_append (p t : string) (k m : nat) :
  substring (String.length p + k) m (p ++ t) = substring k m t.
Proof.
  induction p as [|c p IH]; simpl; [reflexivity | exact IH].
Qed.

Lemma substring_split (s : string) (n : nat) :
  n <= String.length s ->
  (substring 0 n s ++ substring n (String.length s - n) s)%string = s.
Proof.
  revert n; induction s as [|c s IH]; intros [|n] Hn; simpl in *;
    try reflexivity; try lia.
  - now rewrite substring_all.
  - rewrite IH by lia. reflexivity.
Qed.

Lemma length_substring (s : string) (n m : nat) :
  n + m <= String.length s -> String.length (substring n m s) = m.
Proof.
  revert n m; induction s as [|c s IH]; intros [|n] [|m] H; simpl in *;
    try reflexivity; try lia.
  - rewrite IH by lia. reflexivity.
  - apply IH. lia.
  - apply IH. lia.
Qed.

Lemma append_empty_r (s : string) : (s ++ EmptyString)%string = s.
Proof.
  induction s as [|c s IH]; simpl; [reflexivity | now rewrite IH].
Qed.

(** [HasPrefix s p] holds exactly when [s] is [p] followed by something. *)
Lemma HasPrefix_append (p t : string) : HasPrefix (p ++ t) p = true.
Proof.
  unfold HasPrefix. induction p as [|c p IH]; simpl.
  - now destruct t.
  - destruct (ascii_dec c c) as [_|N]; [exact IH | now elim N].
Qed.

Lemma HasPrefix_inv (s p : string) :
  HasPrefix s p = true -> exists t, s = (p ++ t)%string.
Proof.
  unfold HasPrefix. revert s; induction p as [|c p IH]; intros s H.
  - exists s. reflexivity.
  - destruct s as [|d s]; simpl in H; [discriminate|].
    destruct (ascii_dec c d) as [->|_]; [|discriminate].
    destruct (IH s H) as [t ->]. exists t. reflexivity.
Qed.

(** Slicing off a prefix and one more byte. *)
Lemma slice_from_after_prefix (p : string) (c : ascii) (t : string) :
  slice_from (p ++ String c t) (String.length p + 1) = Ret t.
Proof.
  unfold slice_from. rewrite length_append. simpl.
  replace (String.length p + 1 <=? String.length p + S (String.length t)) with true
    by (symmetry; apply Nat.leb_le; lia).
  rewrite substring_skip_append. simpl.
  replace (String.length p + S (String.length t) - (String.length p + 1))
    with (String.length t) by lia.
  now rewrite substring_all.
Qed.

Lemma slice_from_beyond (s : string) (n : nat) :
  String.length s < n -> panics (slice_from s n).
Proof.
  intros H. unfold slice_from, panics.
  replace (n <=? String.length s) with false
    by (symmetry; apply Nat.leb_gt; exact H).
  eauto.
Qed.

(** The loop of [filepath.Split]. *)
Lemma scan_sep_le (path : string) (n : nat) : scan_sep path n <= n.
Proof.
  induction n as [|i IH]; simpl; [lia|].
  destruct (IsPathSeparator (byte_at path i)); lia.
Qed.

Lemma scan_sep_stops_at_separator (path : string) (n i : nat) :
  scan_sep path n = S i -> IsPathSeparator (byte_at path i) = true.
Proof.
  induction n as [|j IH]; simpl; [discriminate|].
  destruct (IsPathSeparator (byte_at path j)) eqn:E; [|exact IH].
  intros H. injection H as <-. exact E.
Qed.

Lemma scan_sep_skips_others (path : string) (n i : nat) :
  scan_sep path n <= i -> i < n -> IsPathSeparator (byte_at path i) = false.
Proof.
  induction n as [|j IH]; simpl; [lia|].
  destruct (IsPathSeparator (byte_at path j)) eqn:E; intros H1 H2; [lia|].
  destruct (Nat.eq_dec i j) as [->|N]; [exact E | apply IH; lia].
Qed.

(** [filepath.Split] cuts the path after its last separator: the two
    parts make up the path, the file part holds no separator, and the
    directory part is empty or ends with a separator. *)
Lemma filepath_Split_append (path : string) :
  (fst (filepath_Split path) ++ snd (filepath_Split path))%string = path.
Proof.
  unfold filepath_Split; simpl. apply substring_split, scan_sep_le.
Qed.

Lemma filepath_Split_file (path : string) (i : nat) (c : ascii) :
  String.get i (snd (filepath_Split path)) = Some c ->
  IsPathSeparator c = false.
Proof.
  unfold filepath_Split; simpl.
  set (n := scan_sep path (String.length path)).
  assert (Hn : n <= String.length path) by apply scan_sep_le.
  intros H.
  destruct (Nat.lt_ge_cases i (String.length path - n)) as [Hi|Hi].
  - rewrite substring_correct1 in H by exact Hi.
    pose proof (@scan_sep_skips_others path (String.length path) (i + n)) as Hs.
    unfold byte_at in Hs. rewrite H in Hs. apply Hs; fold n; lia.
  - rewrite substring_correct2 in H by exact Hi. discriminate.
Qed.

Lemma filepath_Split_dir (path : string) :
  fst (filepath_Split path) = EmptyString \/
  exists i, String.length (fst (filepath_Split path)) = S i /\
            String.get i (fst (filepath_Split path)) = Some "/"%char.
Proof.
  unfold filepath_Split; simpl.
  set (n := scan_sep path (String.length path)).
  assert (Hn : n <= String.length path) by apply scan_sep_le.
  destruct n as [|i] eqn:E.
  - left. now destruct path.
  - right. exists i. split.
    + apply length_substring. lia.
    + rewrite substring_correct1 by lia.
      pose proof (@scan_sep_stops_at_separator path (String.length path) i E) as Hs.
      unfold byte_at, IsPathSeparator in Hs. rewrite Nat.add_0_r.
      destruct (String.get i path) as [c|].
      * apply Ascii.eqb_eq in Hs. now subst.
      * discriminate.
Qed.

(** [bytes.Split] never returns an empty list, and its first segment is
    the input up to its first separator. *)
Lemma bytes_Split_first (b : string) (sep : ascii) :
  exists first rest,
    bytes_Split b sep = first :: rest /\
    (forall i, String.get i first <> Some sep) /\
    ((b = first /\ rest = []) \/
     exists tail, b = (first ++ String sep tail)%string).
Proof.
  induction b as [|c b (first & rest & E & Hno & Hb)]; simpl.
  - exists EmptyString, []. repeat split; auto. intros i; destruct i; discriminate.
  - destruct (Ascii.eqb c sep) eqn:Ec.
    + apply Ascii.eqb_eq in Ec; subst c.
      exists EmptyString, (bytes_Split b sep). repeat split.
      * intros i; destruct i; discriminate.
      * right. exists b. reflexivity.
    + rewrite E. exists (String c first), rest. repeat split.
      * intros [|i]; simpl.
        -- intros H. injection H as ->. rewrite Ascii.eqb_refl in Ec. discriminate.
        -- apply Hno.
      * destruct Hb as [[-> ->]|[tail ->]]; [left; auto | right; exists tail; reflexivity].
Qed.

End GoFacts.

(* ================================================================== *)
(** ** Properties of the lint pipeline *)

Section LintProperties.

Variable P : Platform.

Lemma errToDiagnostics_Some (h : handler) (e : error) :
  errToDiagnostics h (Some e) = Ret [failureDiagnostic (capturedText e)].
Proof. destruct e; reflexivity. Qed.

Lemma errToDiagnostics_None (h : handler) :
  panics (errToDiagnostics h None).
Proof. unfold panics, errToDiagnostics; simpl. eauto. Qed.

(** The loop appends, to what it was given, one diagnostic for each issue
    that passes the filter, in the order of the issues. *)
Lemma lint_issues_append (h : handler) (file : string) (issues : list Issue.t) :
  forall diagnostics,
    lint_issues P h file issues diagnostics =
    (diagnostics ++ map (issueDiagnostic P h) (filter (reportedFor file) issues))%list.
Proof.
  induction issues as [|issue rest IH]; intros diagnostics; simpl.
  - now rewrite app_nil_r.
  - unfold reportedFor at 1.
    destruct (String.eqb file (Pos.Filename (Issue.Pos issue))); simpl.
    + rewrite IH, <- app_assoc. reflexivity.
    + apply IH.
Qed.

(** [lint] is [lint_output] on what the process returned. *)
Lemma lint_unfold (h : handler) (docURI : DocumentURI) (cmd : Cmd)
    (file b : string) (err : option error) :
  lint_cmd P h docURI = Ret (cmd, file) ->
  cmd_Output P cmd = (b, err) ->
  lint P h docURI = lint_output P h file b err.
Proof.
  intros Hc Ho. unfold lint. rewrite Hc. simpl. now rewrite Ho.
Qed.

Lemma lint_output_nonempty (h : handler) (file b : string) (err : option error) :
  b <> EmptyString ->
  lint_output P h file b err =
  match sonic_Unmarshal P (firstSegment b) with
  | inl result =>
      Ret (map (issueDiagnostic P h) (filter (reportedFor file) (Result.Issues result)),
           None)
  | inr msg => Ret ([failureDiagnostic msg], None)
  end.
Proof.
  intros Hb. unfold lint_output, firstSegment.
  destruct b as [|c b]; [congruence|]. cbn [String.length Nat.eqb].
  destruct (GoFacts.bytes_Split_first (String c b) newline) as (first & rest & E & _).
  rewrite E. cbn [index0 bind hd].
  destruct (sonic_Unmarshal P first) as [result|msg].
  - rewrite lint_issues_append. reflexivity.
  - reflexivity.
Qed.

(** C1.  When the output of the process decodes to a result, [lint]
    returns the diagnostics of exactly the issues whose [Pos.Filename]
    equals the relative file name of the requested document: the list is
    the issues filtered by that equality and mapped one to one, so an
    issue of another file yields nothing, an issue of the file yields one
    diagnostic, and the order is that of the issues. *)
Theorem lint_reports_matching_issues
    (h : handler) (docURI : DocumentURI) (cmd : Cmd) (file b : string)
    (err : option error) (result : Result.t) :
  lint_cmd P h docURI = Ret (cmd, file) ->
  cmd_Output P cmd = (b, err) ->
  b <> EmptyString ->
  sonic_Unmarshal P (firstSegment b) = inl result ->
  let matching :=
    filter (fun issue => String.eqb file (Pos.Filename (Issue.Pos issue)))
           (Result.Issues result) in
  lint P h docURI = Ret (map (issueDiagnostic P h) matching, None)
  /\ List.length (map (issueDiagnostic P h) matching) = List.length matching
  /\ (forall issue, In issue matching <->
        In issue (Result.Issues result) /\ Pos.Filename (Issue.Pos issue) = file)
  /\ (forall issue, In issue (Result.Issues result) ->
        Pos.Filename (Issue.Pos issue) <> file -> ~ In issue matching).
Proof.
  intros Hc Ho Hb Hu matching.
  assert (Hin : forall issue, In issue matching <->
            In issue (Result.Issues result) /\ Pos.Filename (Issue.Pos issue) = file).
  { intros issue. unfold matching. rewrite filter_In, String.eqb_eq.
    split; intros [H1 H2]; split; congruence. }
  split; [|split; [|split]].
  - rewrite (lint_unfold h docURI Hc Ho), (lint_output_nonempty h file err Hb), Hu.
    reflexivity.
  - apply length_map.
  - exact Hin.
  - intros issue _ Hne H. apply Hin in H. tauto.
Qed.

(** C3.  Empty standard output with a non-nil process error: [lint]
    returns one diagnostic of error severity with no source and the zero
    range, whose message is the captured standard error of an exit error
    and the text of any other error, and it returns no error of its own. *)
Theorem lint_empty_output_reports_error
    (h : handler) (docURI : DocumentURI) (cmd : Cmd) (file : string) (e : error) :
  lint_cmd P h docURI = Ret (cmd, file) ->
  cmd_Output P cmd = (EmptyString, Some e) ->
  lint P h docURI =
    Ret ([ {| Diagnostic.Range := zeroRange;
              Diagnostic.Severity := ErrorDiagnosticSeverity;
              Diagnostic.Source := EmptyString;
              Diagnostic.Message :=
                match e with
                | ExitError Stderr _ => Stderr
                | OtherError msg => error_Error (OtherError msg)
                end |} ], None).
Proof.
  intros Hc Ho. rewrite (lint_unfold h docURI Hc Ho).
  unfold lint_output. cbn [String.length Nat.eqb].
  rewrite errToDiagnostics_Some. destruct e; reflexivity.
Qed.

(** C4.  Non-empty output: [lint] decodes the first newline-delimited
    segment, the bytes before the first newline, and nothing after it
    takes part in the result: any other non-empty output with the same
    first segment gives the same result.  When that segment does not
    decode, [lint] returns the one diagnostic of the failure path with
    the message of the decode error, and no error. *)
Theorem lint_decodes_first_segment_only
    (h : handler) (docURI : DocumentURI) (cmd : Cmd) (file b : string)
    (err : option error) :
  lint_cmd P h docURI = Ret (cmd, file) ->
  cmd_Output P cmd = (b, err) ->
  b <> EmptyString ->
  let first := firstSegment b in
  (forall i, String.get i first <> Some newline)
  /\ (b = first \/ exists rest, b = (first ++ String newline rest)%string)
  /\ lint P h docURI =
     match sonic_Unmarshal P first with
     | inl result => Ret (lint_issues P h file (Result.Issues result) [], None)
     | inr msg =>
         Ret ([ {| Diagnostic.Range := zeroRange;
                   Diagnostic.Severity := ErrorDiagnosticSeverity;
                   Diagnostic.Source := EmptyString;
                   Diagnostic.Message := msg |} ], None)
     end
  /\ (forall b' err',
        b' <> EmptyString -> firstSegment b' = first ->
        lint_output P h file b' err' = lint P h docURI).
Proof.
  intros Hc Ho Hb first.
  destruct (GoFacts.bytes_Split_first b newline) as (seg & rest & E & Hno & Hshape).
  assert (Hfirst : first = seg) by (unfold first, firstSegment; now rewrite E).
  split; [rewrite Hfirst; exact Hno|]. split; [|split].
  - rewrite Hfirst.
    destruct Hshape as [[-> _]|[tail ->]]; [left; reflexivity | right; eauto].
  - rewrite (lint_unfold h docURI Hc Ho), (lint_output_nonempty h file err Hb).
    fold first.
    destruct (sonic_Unmarshal P first); [|reflexivity].
    now rewrite lint_issues_append.
  - intros b' err' Hb' Hseg.
    rewrite (lint_unfold h docURI Hc Ho).
    rewrite (lint_output_nonempty h file err Hb), (lint_output_nonempty h file err' Hb').
    fold first. now rewrite Hseg.
Qed.

(** C10.  Empty standard output with a nil process error: the conversion
    reaches [Error()] on the nil error and [lint] panics.  The conversion
    returns for every non-nil error and for no other. *)
Theorem lint_empty_output_nil_error_panics
    (h : handler) (docURI : DocumentURI) (cmd : Cmd) (file : string) :
  lint_cmd P h docURI = Ret (cmd, file) ->
  cmd_Output P cmd = (EmptyString, None) ->
  panics (lint P h docURI)
  /\ panics (errToDiagnostics h None)
  /\ (forall err, (exists ds, errToDiagnostics h err = Ret ds) <-> err <> None).
Proof.
  intros Hc Ho. split; [|split].
  - rewrite (lint_unfold h docURI Hc Ho). unfold lint_output, panics.
    cbn. eauto.
  - apply errToDiagnostics_None.
  - intros [e|]; split.
    + discriminate.
    + intros _. rewrite errToDiagnostics_Some. eauto.
    + intros [ds H]. discriminate.
    + congruence.
Qed.

End LintProperties.

(* ================================================================== *)
(** ** Properties of the command builder *)

Section CommandProperties.

Variable P : Platform.

(** The command builder once the two paths and the command are known:
    the prefix test and, under it, the slice past the root and one more
    byte. *)
Lemma lint_cmd_unfold
    (h : handler) (docURI : DocumentURI) (pathname rootname name : string)
    (fixed : list string) :
  uri_Filename P (uri_New P docURI) = Ret pathname ->
  uri_Filename P (rootDir h) = Ret rootname ->
  command h = Some (name :: fixed) ->
  let dir := fst (filepath_Split pathname) in
  let base := snd (filepath_Split pathname) in
  let argv := (name :: fixed ++ [dir])%list in
  lint_cmd P h docURI =
    if HasPrefix pathname rootname
    then file' <- slice_from pathname (String.length rootname + 1) ;;
         Ret ({| Path := commandPath (exec_LookPath P) name; Args := argv;
                 Dir := rootname |}, file')
    else Ret ({| Path := commandPath (exec_LookPath P) name; Args := argv;
                 Dir := dir |}, base).
Proof.
  intros Hp Hr Hc dir base argv.
  unfold lint_cmd. rewrite Hp. cbn [bind].
  subst dir base argv. destruct (filepath_Split pathname) as [d f].
  rewrite Hc. cbn. rewrite Hr. cbn. reflexivity.
Qed.

(** Under the prefix test the builder drops the byte after the root
    path, whichever it is. *)
Lemma lint_cmd_drops_byte_after_root
    (h : handler) (docURI : DocumentURI) (rootname name : string)
    (fixed : list string) (c : ascii) (rest : string) :
  uri_Filename P (uri_New P docURI) = Ret (rootname ++ String c rest)%string ->
  uri_Filename P (rootDir h) = Ret rootname ->
  command h = Some (name :: fixed) ->
  exists cmd, lint_cmd P h docURI = Ret (cmd, rest) /\ Dir cmd = rootname.
Proof.
  intros Hp Hr Hc.
  rewrite (@lint_cmd_unfold h docURI _ rootname name fixed Hp Hr Hc).
  rewrite GoFacts.HasPrefix_append, GoFacts.slice_from_after_prefix. cbn.
  eexists. split; reflexivity.
Qed.

(** X23.  Under the prefix test there are two cases and no other: the path of
    the document is the root path and the slice is out of range, or a
    byte follows the root path and is dropped. *)
Lemma lint_cmd_under_prefix
    (h : handler) (docURI : DocumentURI) (pathname rootname name : string)
    (fixed : list string) :
  uri_Filename P (uri_New P docURI) = Ret pathname ->
  uri_Filename P (rootDir h) = Ret rootname ->
  command h = Some (name :: fixed) ->
  HasPrefix pathname rootname = true ->
  (pathname = rootname /\ panics (lint_cmd P h docURI))
  \/ (exists c rest cmd,
        pathname = (rootname ++ String c rest)%string
        /\ lint_cmd P h docURI = Ret (cmd, rest) /\ Dir cmd = rootname).
Proof.
  intros Hp Hr Hc Hpre.
  destruct (GoFacts.HasPrefix_inv _ _ Hpre) as [[|c rest] ->].
  - rewrite GoFacts.append_empty_r in *. left. split; [reflexivity|].
    pose proof (@lint_cmd_unfold h docURI rootname rootname name fixed Hp Hr Hc)
      as Hstart. cbv zeta in Hstart. rewrite Hstart, Hpre.
    destruct (@GoFacts.slice_from_beyond rootname (String.length rootname + 1))
      as [r Hs]; [lia|].
    rewrite Hs. cbn. unfold panics. eauto.
  - right. exists c, rest.
    destruct (@lint_cmd_drops_byte_after_root h docURI rootname name fixed c rest
                Hp Hr Hc) as (cmd & H1 & H2).
    exists cmd. auto.
Qed.

(** The two unguarded cases of the builder: a document whose path is the
    root path itself, and a command without elements. *)
Lemma lint_cmd_panics_on_root_path
    (h : handler) (docURI : DocumentURI) (rootname name : string)
    (fixed : list string) :
  uri_Filename P (uri_New P docURI) = Ret rootname ->
  uri_Filename P (rootDir h) = Ret rootname ->
  command h = Some (name :: fixed) ->
  panics (lint_cmd P h docURI).
Proof.
  intros Hp Hr Hc.
  rewrite (@lint_cmd_unfold h docURI rootname rootname name fixed Hp Hr Hc).
  rewrite <- (GoFacts.append_empty_r rootname) at 1.
  rewrite GoFacts.HasPrefix_append.
  destruct (@GoFacts.slice_from_beyond rootname (String.length rootname + 1)) as [r Hs];
    [lia|].
  rewrite Hs. cbn. unfold panics. eauto.
Qed.

Lemma lint_cmd_panics_on_empty_command
    (h : handler) (docURI : DocumentURI) (pathname : string) :
  uri_Filename P (uri_New P docURI) = Ret pathname ->
  elems (command h) = [] ->
  panics (lint_cmd P h docURI).
Proof.
  intros Hp Hc. unfold lint_cmd, slice_tail, panics. rewrite Hp. cbn [bind].
  destruct (filepath_Split pathname) as [d f]. rewrite Hc. cbn. eauto.
Qed.

(** The two cases of the command builder in which it does what it is
    meant to do.  For a session whose command is not empty: the arguments
    are the fixed arguments of the command followed by the containing
    directory of the document, which comes last.  When the path of the document is
    the path of the workspace root followed by a separator and a remainder,
    the working directory is the root and the relative file name is that
    remainder; when the root path is not a prefix of the path of the
    document, the working directory is the containing directory and the
    relative file name is the bare file name. *)
Theorem lint_cmd_builds_command
    (h : handler) (docURI : DocumentURI) (pathname rootname name : string)
    (fixed : list string) :
  uri_Filename P (uri_New P docURI) = Ret pathname ->
  uri_Filename P (rootDir h) = Ret rootname ->
  command h = Some (name :: fixed) ->
  let dir := fst (filepath_Split pathname) in
  let base := snd (filepath_Split pathname) in
  let argv := (name :: fixed ++ [dir])%list in
  (forall rest,
      pathname = (rootname ++ String "/" rest)%string ->
      HasPrefix pathname rootname = true /\
      lint_cmd P h docURI =
        Ret ({| Path := commandPath (exec_LookPath P) name; Args := argv;
                Dir := rootname |}, rest))
  /\ (HasPrefix pathname rootname = false ->
      lint_cmd P h docURI =
        Ret ({| Path := commandPath (exec_LookPath P) name; Args := argv;
                Dir := dir |}, base))
  /\ (dir ++ base)%string = pathname
  /\ (forall i c, String.get i base = Some c -> IsPathSeparator c = false)
  /\ (dir = EmptyString \/
      exists i, String.length dir = S i /\ String.get i dir = Some "/"%char)
  /\ last argv EmptyString = dir.
Proof.
  intros Hp Hr Hc dir base argv.
  pose proof (@lint_cmd_unfold h docURI pathname rootname name fixed Hp Hr Hc)
    as Hstart. cbv zeta in Hstart. fold dir base argv in Hstart.
  split; [|split; [|split; [|split; [|split]]]].
  - intros rest ->. split; [apply GoFacts.HasPrefix_append|].
    rewrite Hstart, GoFacts.HasPrefix_append, GoFacts.slice_from_after_prefix.
    reflexivity.
  - intros Hn. rewrite Hstart, Hn. reflexivity.
  - apply GoFacts.filepath_Split_append.
  - intros i c. apply GoFacts.filepath_Split_file.
  - apply GoFacts.filepath_Split_dir.
  - unfold argv. change (name :: fixed ++ [dir])%list with ((name :: fixed) ++ [dir])%list.
    apply last_last.
Qed.

End CommandProperties.

(* ================================================================== *)
(** ** Properties of the positions *)

Section PositionProperties.

Variable P : Platform.

Lemma max_spec (a b : Z) : max a b = Z.max a b.
Proof.
  unfold max. destruct (Z.ltb_spec a b); lia.
Qed.

Lemma int_sub_in_range (a b : Z) :
  (int_min <= a - b <= int_max)%Z -> int_sub a b = (a - b)%Z.
Proof.
  unfold int_sub, wrap_int, int_min, int_max. intros H.
  rewrite Z.mod_small; lia.
Qed.

Lemma uint32_in_range (z : Z) : (0 <= z < 2 ^ 32)%Z -> uint32 z = z.
Proof. intros H. unfold uint32. apply Z.mod_small. exact H. Qed.

(** The translation of one coordinate, inside the bounds in which neither
    the subtraction nor the conversion wraps. *)
Lemma coordinate_clamped (x : Z) :
  (int_min < x <= 2 ^ 32)%Z ->
  uint32 (max (int_sub x 1) 0) = Z.max (x - 1) 0.
Proof.
  intros H. unfold int_min in H.
  rewrite int_sub_in_range by (unfold int_min, int_max; lia).
  rewrite max_spec. apply uint32_in_range. lia.
Qed.

(** C6.  An issue that passes the filter has its diagnostic in the
    result, and the range of that diagnostic is a point range: its start
    is its end.  For a line and a column greater than the least [int] and
    at most [2^32], the line is [max (Pos.Line - 1) 0] and the character
    is [max (Pos.Column - 1) 0]. *)
Theorem issue_range_is_clamped_point
    (h : handler) (file : string) (issues : list Issue.t) (issue : Issue.t) :
  In issue issues ->
  Pos.Filename (Issue.Pos issue) = file ->
  let d := issueDiagnostic P h issue in
  In d (lint_issues P h file issues [])
  /\ Range.Start (Diagnostic.Range d) = Range.End (Diagnostic.Range d)
  /\ ((int_min < Pos.Line (Issue.Pos issue) <= 2 ^ 32)%Z ->
      Position.Line (Range.Start (Diagnostic.Range d)) =
      Z.max (Pos.Line (Issue.Pos issue) - 1) 0)
  /\ ((int_min < Pos.Column (Issue.Pos issue) <= 2 ^ 32)%Z ->
      Position.Character (Range.Start (Diagnostic.Range d)) =
      Z.max (Pos.Column (Issue.Pos issue) - 1) 0).
Proof.
  intros Hin Hf d. split; [|split; [|split]].
  - rewrite lint_issues_append. cbn [app]. apply in_map, filter_In.
    split; [exact Hin|]. unfold reportedFor. apply String.eqb_eq. congruence.
  - reflexivity.
  - intros H. cbn. apply coordinate_clamped, H.
  - intros H. cbn. apply coordinate_clamped, H.
Qed.

End PositionProperties.

(* ================================================================== *)
(** ** Properties of the initialization *)

Section InitializeProperties.

(** C9.  [Initialize] panics when the list of workspace folders is empty,
    and when the initialization options are nil or of any dynamic type
    other than a map keyed by strings. *)
Theorem Initialize_panics_on_malformed_params
    (h : handler) (params : InitializeParams.t) :
  (InitializeParams.WorkspaceFolders params = [] -> panics (Initialize h params))
  /\ (InitializeParams.InitializationOptions params = any_nil ->
      panics (Initialize h params))
  /\ ((forall m, InitializeParams.InitializationOptions params <> any_map m) ->
      panics (Initialize h params))
  /\ ((exists r, Initialize h params = Ret r) ->
      InitializeParams.WorkspaceFolders params <> [] /\
      exists m, InitializeParams.InitializationOptions params = any_map m).
Proof.
  assert (Hopt : (forall m, InitializeParams.InitializationOptions params <> any_map m) ->
                 panics (Initialize h params)).
  { intros Hm. unfold Initialize, panics.
    destruct (InitializeParams.WorkspaceFolders params) as [|f fs]; cbn; [eauto|].
    destruct (InitializeParams.InitializationOptions params) as [| | | | |m|];
      cbn; eauto.
    now elim (Hm m). }
  split; [|split; [|split]].
  - intros H. unfold Initialize, panics. rewrite H. cbn. eauto.
  - intros H. apply Hopt. intros m. rewrite H. discriminate.
  - exact Hopt.
  - intros [r Hr]. unfold Initialize in Hr.
    destruct (InitializeParams.WorkspaceFolders params) as [|f fs]; cbn in Hr;
      [discriminate|].
    split; [discriminate|].
    destruct (InitializeParams.InitializationOptions params) as [| | | | |m|];
      cbn in Hr; try discriminate.
    eauto.
Qed.

(** X6.  The command of the session after [Initialize] on the handler that
    [NewServer] made: the list under the key [command] when it is a
    non-nil [[]string], the default command in every other case. *)
Lemma Initialize_command
    (noLinterName' : bool) (folder : WorkspaceFolder.t)
    (folders : list WorkspaceFolder.t) (m : list (string * any)) :
  exists r,
    Initialize (NewServer noLinterName')
      {| InitializeParams.WorkspaceFolders := folder :: folders;
         InitializeParams.InitializationOptions := any_map m |}
    = Ret ({| noLinterName := noLinterName';
              command :=
                Some match map_index m "command" with
                     | any_strings (Some supplied) => supplied
                     | _ => defaultCommand
                     end;
              rootURI := WorkspaceFolder.URI folder;
              rootDir := WorkspaceFolder.URI folder |}, r).
Proof.
  unfold Initialize. cbn.
  destruct (map_index m "command") as [| | | | | |[supplied|]]; cbn; eauto.
Qed.

End InitializeProperties.

(* ================================================================== *)
(** ** Properties of the severity mapping *)

Section SeverityProperties.

Variable P : Platform.

Lemma allBytes_complete (c : ascii) : In c allBytes.
Proof.
  unfold allBytes. rewrite <- (ascii_nat_embedding c).
  apply in_map, in_seq. pose proof (nat_ascii_bounded c). lia.
Qed.

Lemma lowerByte_table :
  forallb (fun c =>
    forallb (fun k =>
      implb (negb (isUpperByte k))
            (Bool.eqb (Ascii.eqb (lowerByte c) k) (sameLetter c k)))
      allBytes) allBytes = true.
Proof. vm_compute. reflexivity. Qed.

(** Lowering a byte gives a byte that is not an upper-case letter exactly
    when the two are the same letter. *)
Lemma lowerByte_sameLetter (c k : ascii) :
  isUpperByte k = false -> Ascii.eqb (lowerByte c) k = sameLetter c k.
Proof.
  intros Hk. pose proof lowerByte_table as T.
  rewrite forallb_forall in T. specialize (T c (allBytes_complete c)).
  rewrite forallb_forall in T. specialize (T k (allBytes_complete k)).
  rewrite Hk in T. cbn in T. now apply Bool.eqb_prop in T.
Qed.

Lemma lowerBytes_eqb (s name : string) :
  hasUpper name = false ->
  String.eqb (lowerBytes s) name = matchesIgnoringCase s name.
Proof.
  revert name; induction s as [|c s IH]; intros [|k name] H; cbn; try reflexivity.
  cbn in H. apply orb_false_elim in H as [Hk Hn].
  rewrite (@lowerByte_sameLetter c k Hk), (IH name Hn).
  destruct (sameLetter c k); reflexivity.
Qed.

Lemma lowerBytes_without_upper (s : string) :
  hasUpper s = false -> lowerBytes s = s.
Proof.
  induction s as [|c s IH]; cbn; [reflexivity|].
  intros H. apply orb_false_elim in H as [Hc Hs].
  unfold lowerByte. rewrite Hc, (IH Hs). reflexivity.
Qed.

(** On ASCII input [strings.ToLower] lowers byte by byte. *)
Lemma ToLower_ascii (s : string) :
  isASCII s = true -> ToLower (unicode_ToLower P) s = lowerBytes s.
Proof.
  intros H. unfold ToLower. rewrite H.
  destruct (hasUpper s) eqn:E; cbn; [reflexivity|].
  symmetry. now apply lowerBytes_without_upper.
Qed.

(** C7.  The severity mapping returns one of the four severities for
    every string.  It is decided by the lowered string: the four names
    give their severities and every other lowered string, the empty one
    included, gives the warning severity.  On ASCII input this is the
    match of the four names letter by letter in either case. *)
Theorem SeverityFromString_total_case_insensitive (h : handler) (s : string) :
  let lowered := ToLower (unicode_ToLower P) s in
  In (SeverityFromString P h s)
     [ErrorDiagnosticSeverity; WarningDiagnosticSeverity;
      InformationDiagnosticSeverity; HintDiagnosticSeverity]
  /\ (lowered = "error"%string ->
      SeverityFromString P h s = ErrorDiagnosticSeverity)
  /\ (lowered = "warning"%string ->
      SeverityFromString P h s = WarningDiagnosticSeverity)
  /\ (lowered = "information"%string ->
      SeverityFromString P h s = InformationDiagnosticSeverity)
  /\ (lowered = "hint"%string ->
      SeverityFromString P h s = HintDiagnosticSeverity)
  /\ (lowered <> "error"%string -> lowered <> "information"%string ->
      lowered <> "hint"%string ->
      SeverityFromString P h s = WarningDiagnosticSeverity)
  /\ (isASCII s = true -> SeverityFromString P h s = severityOfName s)
  /\ SeverityFromString P h EmptyString = WarningDiagnosticSeverity.
Proof.
  intros lowered. unfold SeverityFromString. fold lowered.
  repeat split.
  - destruct (String.eqb lowered "error"); [cbn; auto|].
    destruct (String.eqb lowered "warning"); [cbn; auto|].
    destruct (String.eqb lowered "information"); [cbn; auto|].
    destruct (String.eqb lowered "hint"); cbn; auto.
  - intros ->. reflexivity.
  - intros ->. reflexivity.
  - intros ->. reflexivity.
  - intros ->. reflexivity.
  - intros H1 H2 H3.
    apply String.eqb_neq in H1, H2, H3. rewrite H1, H2, H3.
    destruct (String.eqb lowered "warning"); reflexivity.
  - intros Ha. unfold lowered, severityOfName. rewrite (@ToLower_ascii s Ha).
    rewrite !lowerBytes_eqb by reflexivity. reflexivity.
Qed.

End SeverityProperties.

(* ================================================================== *)
(** ** The properties on the scenarios *)

Module ScenarioFacts.

Import Scenario.
#[local] Open Scope string_scope.

(** The first scenario of the specification, with issues of a sibling
    file around the issues of the document: the issues of [pkg/a.go]
    and no other are reported, in their order. *)
Lemma lint_reports_matching_issues_on_scenario :
  lint (platform found "report" result) session a_go
  = Ret ([unusedVar 9 2; unusedVar 0 0], None).
Proof.
  exact (proj1 (@lint_reports_matching_issues (platform found "report" result)
                  session a_go command_a "pkg/a.go" (fst found) (snd found) result
                  eq_refl eq_refl ltac:(discriminate) eq_refl)).
Defined.

(** The command of the scenario: the root is the working directory and
    the file name is relative to it. *)
Lemma lint_cmd_builds_command_on_scenario :
  lint_cmd (platform found "report" result) session a_go
  = Ret (command_a, "pkg/a.go").
Proof.
  exact (proj2 (proj1 (@lint_cmd_builds_command (platform found "report" result)
                         session a_go "/proj/pkg/a.go" "/proj" "lint"
                         ["--format"; "json"] eq_refl eq_refl eq_refl)
                      "pkg/a.go" eq_refl)).
Defined.

(** C2.  A document of a directory beside the root whose name starts
    with the name of the root: the root path is a string prefix of its
    path, so the builder takes the root as working directory and drops
    the root and one more byte, which is no separator.  The relative file
    name it returns is not the path with the root and a separator
    stripped. *)
Lemma lint_cmd_prefix_without_separator :
  HasPrefix "/project/a.go" "/proj" = true
  /\ lint_cmd (platform found "report" result) session "file:///project/a.go"
     = Ret ({| Path := "/usr/local/bin/lint";
               Args := ["lint"; "--format"; "json"; "/project/"];
               Dir := "/proj" |}, "ct/a.go")
  /\ ~ (exists cmd file,
          lint_cmd (platform found "report" result) session "file:///project/a.go"
          = Ret (cmd, file)
          /\ "/project/a.go" = "/proj" ++ String "/" file).
Proof.
  split; [reflexivity|]. split; [reflexivity|].
  intros (cmd & file & H & E). vm_compute in H.
  injection H as _ <-. discriminate E.
Qed.

(** The third scenario of the specification: exit status 2, nothing on
    standard output, the configuration error on standard error. *)
Lemma lint_empty_output_reports_error_on_scenario :
  lint (platform failed "report" result) session a_go
  = Ret ([failureDiagnostic "config error: no .golangci.yml"], None).
Proof.
  exact (@lint_empty_output_reports_error (platform failed "report" result)
           session a_go command_a "pkg/a.go"
           (ExitError "config error: no .golangci.yml" "exit status 2")
           eq_refl eq_refl).
Defined.

(** A log line before the report: the first segment is the log line, it
    does not decode, and the report after it is not looked at. *)
Lemma lint_decodes_first_segment_only_on_scenario :
  firstSegment (fst garbled) = "level=error"
  /\ lint (platform garbled "report" result) session a_go
     = Ret ([failureDiagnostic "invalid character looking for beginning of value"],
            None).
Proof.
  split; [reflexivity|].
  exact (proj1 (proj2 (proj2 (@lint_decodes_first_segment_only
                         (platform garbled "report" result) session a_go command_a
                         "pkg/a.go" (fst garbled) (snd garbled)
                         eq_refl eq_refl ltac:(discriminate))))).
Defined.

(** The executable of a command: a bare name is looked up, a name with
    a directory is kept, and a name that is not found stays as it is. *)
Example commandPath_examples :
  map (commandPath (exec_LookPath (platform found "report" result)))
      ["lint"; "./lint"; "/opt/lint"; "golangci-lint"]
  = ["/usr/local/bin/lint"; "./lint"; "/opt/lint"; "golangci-lint"].
Proof. reflexivity. Qed.

Example filepath_Base_examples :
  map filepath_Base ["lint"; "/usr/bin/lint"; ""; "/"; "a/b/"; "./lint"]
  = ["lint"; "lint"; "."; "/"; "b"; "lint"].
Proof. reflexivity. Qed.

(** An issue at line 1, column 1 is reported at position (0,0). *)
Lemma issue_range_is_clamped_point_on_scenario :
  Position.Line (Range.Start (Diagnostic.Range
    (issueDiagnostic (platform found "report" result) session
       (issueAt "pkg/a.go" 1 1)))) = 0%Z
  /\ Position.Character (Range.Start (Diagnostic.Range
    (issueDiagnostic (platform found "report" result) session
       (issueAt "pkg/a.go" 1 1)))) = 0%Z.
Proof.
  pose proof (@issue_range_is_clamped_point (platform found "report" result)
                session "pkg/a.go" (Result.Issues result) (issueAt "pkg/a.go" 1 1)
                ltac:(simpl; tauto) eq_refl) as (_ & _ & Hline & Hcol).
  split.
  - apply Hline. unfold int_min. simpl. lia.
  - apply Hcol. unfold int_min. simpl. lia.
Defined.

(** An issue with zero line and column is reported at (0,0) as well. *)
Example issue_at_zero_is_clamped :
  issuePosition (issueAt "pkg/a.go" 0 0) = zeroPosition.
Proof. reflexivity. Qed.

(** A line beyond [2^32]: the issue passes the filter, and the line of
    its diagnostic is the clamped line reduced modulo [2^32], here 0 and
    not [max (Pos.Line - 1) 0]. *)
Lemma issue_line_beyond_uint32_is_truncated :
  let issue := issueAt "pkg/a.go" 4294967297 1 in
  let d := issueDiagnostic (platform found "report" result) session issue in
  lint_issues (platform found "report" result) session "pkg/a.go" [issue] [] = [d]
  /\ Position.Line (Range.Start (Diagnostic.Range d)) = 0%Z
  /\ Z.max (Pos.Line (Issue.Pos issue) - 1) 0 = 4294967296%Z
  /\ Position.Line (Range.Start (Diagnostic.Range d))
     <> Z.max (Pos.Line (Issue.Pos issue) - 1) 0.
Proof.
  cbv zeta. repeat split; try reflexivity. vm_compute. discriminate.
Qed.

(** The least [int] as a line: the subtraction wraps to the greatest
    [int], which the conversion truncates. *)
Example issue_line_least_int_wraps :
  Position.Line (issuePosition (issueAt "pkg/a.go" (-9223372036854775808) 1))
  = 4294967295%Z.
Proof. reflexivity. Qed.

(** The severity names in mixed case. *)
Lemma SeverityFromString_on_mixed_case :
  SeverityFromString (platform found "report" result) session "ErRoR"
  = ErrorDiagnosticSeverity.
Proof.
  exact (proj1 (proj2 (proj2 (proj2 (proj2 (proj2 (proj2
           (@SeverityFromString_total_case_insensitive
              (platform found "report" result) session "ErRoR")))))))
         eq_refl).
Defined.

Example SeverityFromString_examples :
  map (SeverityFromString (platform found "report" result) session)
      ["error"; "WARNING"; "Information"; "hInT"; ""; "fatal"; "errors"; " error"]
  = [ErrorDiagnosticSeverity; WarningDiagnosticSeverity;
     InformationDiagnosticSeverity; HintDiagnosticSeverity;
     WarningDiagnosticSeverity; WarningDiagnosticSeverity;
     WarningDiagnosticSeverity; WarningDiagnosticSeverity].
Proof. reflexivity. Qed.

(** No workspace folder. *)
Lemma Initialize_panics_without_workspace_folder :
  panics (Initialize (NewServer false)
            {| InitializeParams.WorkspaceFolders := [];
               InitializeParams.InitializationOptions := any_map [] |}).
Proof.
  exact (proj1 (@Initialize_panics_on_malformed_params (NewServer false)
                  {| InitializeParams.WorkspaceFolders := [];
                     InitializeParams.InitializationOptions := any_map [] |})
               eq_refl).
Defined.

(** Exit status 0 and no output. *)
Lemma lint_empty_output_nil_error_panics_on_scenario :
  panics (lint (platform silent "report" result) session a_go).
Proof.
  exact (proj1 (@lint_empty_output_nil_error_panics (platform silent "report" result)
                  session a_go command_a "pkg/a.go" eq_refl eq_refl)).
Defined.

(** C8.  Initialization options as they arrive over the wire: the JSON
    decoder stores an array as a [[]any], the type assertion to
    [[]string] does not hold for it, and the command of the options is
    dropped for the default command. *)
Example Initialize_drops_decoded_command_list :
  Initialize (NewServer false)
    {| InitializeParams.WorkspaceFolders :=
         [ {| WorkspaceFolder.URI := "file:///proj"; WorkspaceFolder.Name := "proj" |} ];
       InitializeParams.InitializationOptions :=
         any_map [("command",
                   any_slice [any_string "lint"; any_string "--format";
                              any_string "json"])] |}
  = Ret ({| noLinterName := false;
            command := Some ["golangci-lint"; "run"; "--out-format"; "json"];
            rootURI := "file:///proj";
            rootDir := "file:///proj" |},
         {| InitializeResult.OpenClose := true;
            InitializeResult.IncrementalChange := true;
            InitializeResult.SaveIncludeText := true;
            InitializeResult.ServerInfoName := "golangci-lint-langserver" |}).
Proof. reflexivity. Qed.

(** The same list stored as a [[]string], as a Go caller can pass it, is
    taken. *)
Example Initialize_takes_string_slice :
  exists r,
    Initialize (NewServer false)
      {| InitializeParams.WorkspaceFolders :=
           [ {| WorkspaceFolder.URI := "file:///proj"; WorkspaceFolder.Name := "proj" |} ];
         InitializeParams.InitializationOptions :=
           any_map [("command", any_strings (Some ["lint"; "--format"; "json"]))] |}
    = Ret (session, r).
Proof. eexists. reflexivity. Qed.

End ScenarioFacts.

(* ================================================================== *)
(** ** Further properties of [lint] *)

Section LintFurther.

Variable P : Platform.

Lemma lint_output_error_nil (h : handler) (file b : string) (err : option error)
    (ds : list Diagnostic.t) (e : option error) :
  lint_output P h file b err = Ret (ds, e) -> e = None.
Proof.
  unfold lint_output. destruct (String.length b =? 0)%nat.
  - destruct (errToDiagnostics h err); cbn; [|discriminate].
    intros H. now injection H.
  - destruct (index0 (bytes_Split b newline)) as [first|]; cbn; [|discriminate].
    destruct (sonic_Unmarshal P first) as [result|msg]; cbn.
    + intros H. now injection H.
    + intros H. now injection H.
Qed.

(** What a returning [lint_cmd] went through. *)
Lemma lint_cmd_inversion (h : handler) (docURI : DocumentURI) (cmd : Cmd)
    (file : string) :
  lint_cmd P h docURI = Ret (cmd, file) ->
  exists pathname rootname name fixed,
    uri_Filename P (uri_New P docURI) = Ret pathname
    /\ uri_Filename P (rootDir h) = Ret rootname
    /\ command h = Some (name :: fixed)
    /\ Path cmd = commandPath (exec_LookPath P) name
    /\ Args cmd = (name :: fixed ++ [fst (filepath_Split pathname)])%list
    /\ ((HasPrefix pathname rootname = true /\ Dir cmd = rootname
         /\ slice_from pathname (String.length rootname + 1) = Ret file)
        \/ (HasPrefix pathname rootname = false
            /\ Dir cmd = fst (filepath_Split pathname)
            /\ file = snd (filepath_Split pathname))).
Proof.
  unfold lint_cmd.
  destruct (uri_Filename P (uri_New P docURI)) as [pathname|] eqn:Hp; cbn; [|discriminate].
  destruct (filepath_Split pathname) as [dir base] eqn:Hs.
  destruct (command h) as [[|name fixed]|] eqn:Hc; cbn; try discriminate.
  destruct (uri_Filename P (rootDir h)) as [rootname|] eqn:Hr; cbn; [|discriminate].
  destruct (HasPrefix pathname rootname) eqn:Hpre.
  - destruct (slice_from pathname (String.length rootname + 1)) as [file'|] eqn:Hsl;
      cbn; [|discriminate].
    intros H. injection H as <- <-.
    exists pathname, rootname, name, fixed. repeat split; auto.
  - intros H. injection H as <- <-.
    exists pathname, rootname, name, fixed. repeat split; auto.
Qed.

Lemma lint_panics_with_lint_cmd (h : handler) (docURI : DocumentURI) :
  panics (lint_cmd P h docURI) -> panics (lint P h docURI).
Proof.
  intros [r Hr]. unfold lint, panics. rewrite Hr. cbn. eauto.
Qed.

(** X1.  [lint] never returns an error: whenever it returns, its second
    result is nil, on the failure paths as well as on the success path,
    whatever the process and the decoder answer. *)
Theorem lint_never_returns_error
    (h : handler) (docURI : DocumentURI) (ds : list Diagnostic.t)
    (e : option error) :
  lint P h docURI = Ret (ds, e) -> e = None.
Proof.
  unfold lint. destruct (lint_cmd P h docURI) as [[cmd file]|]; cbn; [|discriminate].
  destruct (cmd_Output P cmd) as [b err]. apply lint_output_error_nil.
Qed.

(** X2.  Every diagnostic of the loop comes from an issue of the
    requested file: its source is the linter of that issue, its message
    is the text of the issue, after the name of the linter and a colon
    unless the linter name is switched off, and its severity is the
    mapped severity of the issue. *)
Theorem lint_issues_sound
    (h : handler) (file : string) (issues : list Issue.t) (d : Diagnostic.t) :
  In d (lint_issues P h file issues []) ->
  exists issue,
    In issue issues
    /\ Pos.Filename (Issue.Pos issue) = file
    /\ Diagnostic.Source d = Issue.FromLinter issue
    /\ Diagnostic.Message d =
         (if noLinterName h then Issue.Text issue
          else Issue.FromLinter issue ++ ": " ++ Issue.Text issue)%string
    /\ Diagnostic.Severity d = SeverityFromString P h (Issue.Severity issue)
    /\ Range.Start (Diagnostic.Range d) = Range.End (Diagnostic.Range d).
Proof.
  rewrite lint_issues_append. cbn [app]. intros Hin.
  apply in_map_iff in Hin as (issue & <- & Hf).
  apply filter_In in Hf as [Hin Hf]. unfold reportedFor in Hf.
  apply String.eqb_eq in Hf.
  exists issue. repeat split; auto.
Qed.

(** The coordinates of a diagnostic are never negative and never reach
    [2^32], whatever the line and the column of the issue are. *)
Lemma issuePosition_in_uint32 (issue : Issue.t) :
  (0 <= Position.Line (issuePosition issue) < 2 ^ 32)%Z
  /\ (0 <= Position.Character (issuePosition issue) < 2 ^ 32)%Z.
Proof.
  unfold issuePosition, uint32; cbn. split; apply Z.mod_pos_bound; lia.
Qed.

(** X3.  When the builder returns, the arguments of the command are the
    command of the session followed by the containing directory of the
    document, and the working directory followed by the relative file
    name spells the path of the document, with at most one byte left out
    between them.  Nothing is said of the executable, which is what the
    lookup of the command name gives. *)
Theorem lint_cmd_result_spells_path
    (h : handler) (docURI : DocumentURI) (pathname : string) (cmd : Cmd)
    (file : string) :
  uri_Filename P (uri_New P docURI) = Ret pathname ->
  lint_cmd P h docURI = Ret (cmd, file) ->
  Args cmd = (elems (command h) ++ [fst (filepath_Split pathname)])%list
  /\ (pathname = (Dir cmd ++ file)%string
      \/ exists c, pathname = (Dir cmd ++ String c file)%string).
Proof.
  intros Hp Hl.
  destruct (@lint_cmd_inversion h docURI cmd file Hl)
    as (pathname' & rootname & name & fixed & Hp' & Hr & Hc & Hpath & Hargs & Hcase).
  rewrite Hp in Hp'. injection Hp' as <-.
  rewrite Hc. cbn [elems]. split; [exact Hargs|].
  destruct Hcase as [(Hpre & Hd & Hsl)|(Hpre & Hd & Hf)].
  - right. rewrite Hd.
    destruct (GoFacts.HasPrefix_inv _ _ Hpre) as [[|c rest] E].
    + rewrite GoFacts.append_empty_r in E. subst pathname.
      destruct (@GoFacts.slice_from_beyond rootname (String.length rootname + 1))
        as [r Hs]; [lia|]. rewrite Hs in Hsl. discriminate.
    + subst pathname. rewrite GoFacts.slice_from_after_prefix in Hsl.
      injection Hsl as <-. exists c. reflexivity.
  - left. rewrite Hd, Hf. symmetry. apply GoFacts.filepath_Split_append.
Qed.

(** X4.  On the handler [NewServer] returns, before [Initialize] has set
    the command, [lint] panics on every document. *)
Theorem lint_before_Initialize_panics
    (noLinterName' : bool) (docURI : DocumentURI) (pathname : string) :
  uri_Filename P (uri_New P docURI) = Ret pathname ->
  panics (lint P (NewServer noLinterName') docURI).
Proof.
  intros Hp. apply lint_panics_with_lint_cmd.
  apply (@lint_cmd_panics_on_empty_command P (NewServer noLinterName') docURI pathname Hp).
  reflexivity.
Qed.

(** X5.  Two ASCII severity strings that differ in the case of their
    letters only are mapped to the same severity. *)
Theorem SeverityFromString_ignores_case (h : handler) (s t : string) :
  isASCII s = true -> isASCII t = true ->
  lowerBytes s = lowerBytes t ->
  SeverityFromString P h s = SeverityFromString P h t.
Proof.
  intros Hs Ht E. unfold SeverityFromString.
  rewrite (@ToLower_ascii P s Hs), (@ToLower_ascii P t Ht), E. reflexivity.
Qed.

End LintFurther.

(* ================================================================== *)
(** ** Further properties of [Initialize] *)

Section InitializeFurther.

Variable P : Platform.

Definition paramsOf (folders : list WorkspaceFolder.t) (m : list (string * any))
  : InitializeParams.t :=
  {| InitializeParams.WorkspaceFolders := folders;
     InitializeParams.InitializationOptions := any_map m |}.

(** [Initialize] on any handler, with a folder and options that are a
    map: the roots are the URI of the first folder, and the command is
    the [[]string] of the options, else the command the handler had, else
    the default command. *)
Lemma Initialize_returns (h : handler) (folder : WorkspaceFolder.t)
    (folders : list WorkspaceFolder.t) (m : list (string * any)) :
  exists r,
    Initialize h (paramsOf (folder :: folders) m)
    = Ret ({| noLinterName := noLinterName h;
              command :=
                Some match match map_index m "command" with
                           | any_strings supplied => supplied
                           | _ => command h
                           end with
                     | Some c => c
                     | None => defaultCommand
                     end;
              rootURI := WorkspaceFolder.URI folder;
              rootDir := WorkspaceFolder.URI folder |}, r).
Proof.
  unfold Initialize, paramsOf. cbn.
  destruct (map_index m "command") as [| | | | | |[supplied|]]; cbn;
    try (destruct (command h); cbn); eauto.
Qed.

(** X7.  A later [Initialize] whose options carry no [[]string] under
    [command] does not go back to the default command: the command an
    earlier call has set stays. *)
Theorem Initialize_keeps_earlier_command
    (h : handler) (earlier : list string) (folder : WorkspaceFolder.t)
    (folders : list WorkspaceFolder.t) (m : list (string * any)) :
  command h = Some earlier ->
  (forall l, map_index m "command" <> any_strings l) ->
  exists h' r,
    Initialize h (paramsOf (folder :: folders) m) = Ret (h', r)
    /\ command h' = Some earlier.
Proof.
  intros Hc Hm.
  destruct (Initialize_returns h folder folders m) as [r Hr].
  eexists. exists r. split; [exact Hr|]. cbn.
  destruct (map_index m "command") as [| | | | | |l]; rewrite ?Hc; try reflexivity.
  now elim (Hm l).
Qed.

(** X8.  Whenever [Initialize] returns, the command of the session is
    not nil, the two roots are the URI of the first workspace folder, the
    folders after the first are not looked at, and the linter-name flag
    is the one the handler was made with. *)
Theorem Initialize_result_invariant
    (h h' : handler) (params : InitializeParams.t) (r : InitializeResult.t) :
  Initialize h params = Ret (h', r) ->
  command h' <> None
  /\ noLinterName h' = noLinterName h
  /\ (exists folder folders,
        InitializeParams.WorkspaceFolders params = folder :: folders
        /\ rootURI h' = WorkspaceFolder.URI folder
        /\ rootDir h' = WorkspaceFolder.URI folder)
  /\ rootURI h' = rootDir h'.
Proof.
  destruct params as [folders options]. unfold Initialize. cbn.
  destruct folders as [|folder folders]; cbn; [discriminate|].
  destruct options as [| | | | |m|]; cbn; try discriminate.
  intros H. injection H as <- _.
  destruct (map_index m "command") as [| | | | | |[supplied|]]; cbn;
    try (destruct (command h); cbn); repeat split; eauto; discriminate.
Qed.

(** X9.  An empty list under [command] is taken as the command, and
    from then on [lint] panics on every document. *)
Theorem Initialize_empty_command_breaks_lint
    (noLinterName' : bool) (folder : WorkspaceFolder.t)
    (folders : list WorkspaceFolder.t) (m : list (string * any))
    (docURI : DocumentURI) (pathname : string) :
  map_index m "command" = any_strings (Some []) ->
  uri_Filename P (uri_New P docURI) = Ret pathname ->
  exists h' r,
    Initialize (NewServer noLinterName') (paramsOf (folder :: folders) m) = Ret (h', r)
    /\ command h' = Some []
    /\ panics (lint P h' docURI).
Proof.
  intros Hm Hp.
  destruct (Initialize_returns (NewServer noLinterName') folder folders m) as [r Hr].
  rewrite Hm in Hr. eexists. exists r. split; [exact Hr|]. split; [reflexivity|].
  apply lint_panics_with_lint_cmd.
  apply (@lint_cmd_panics_on_empty_command P _ docURI pathname Hp). reflexivity.
Qed.

(** X10.  After [Initialize] with options that carry no command, the
    arguments of every command [lint] builds are the default command
    followed by the containing directory of the document. *)
Theorem Initialize_default_command_line
    (noLinterName' : bool) (folder : WorkspaceFolder.t)
    (folders : list WorkspaceFolder.t) (m : list (string * any))
    (docURI : DocumentURI) (pathname : string) :
  (forall supplied, map_index m "command" <> any_strings (Some supplied)) ->
  uri_Filename P (uri_New P docURI) = Ret pathname ->
  exists h' r,
    Initialize (NewServer noLinterName') (paramsOf (folder :: folders) m) = Ret (h', r)
    /\ forall cmd file,
         lint_cmd P h' docURI = Ret (cmd, file) ->
         Args cmd = ["golangci-lint"; "run"; "--out-format"; "json";
                     fst (filepath_Split pathname)]%string.
Proof.
  intros Hm Hp.
  destruct (Initialize_returns (NewServer noLinterName') folder folders m) as [r Hr].
  eexists. exists r. split; [exact Hr|].
  intros cmd file Hl.
  destruct (@lint_cmd_inversion P _ _ _ _ Hl)
    as (pathname' & rootname & name & fixed & Hp' & _ & Hc & Hpath & Hargs & _).
  rewrite Hp in Hp'. injection Hp' as <-.
  cbn in Hc.
  destruct (map_index m "command") as [| | | | | |[supplied|]]; cbn in Hc;
    try (injection Hc as <- <-; rewrite Hargs; reflexivity).
  now elim (Hm supplied).
Qed.

End InitializeFurther.

(* ================================================================== *)
(** ** Properties of the worker *)

(** A cycle goes through: [lint] returns and the notification is
    delivered. *)
Definition goesThrough (c : Cycle) : Prop :=
  exists ds,
    lint (cycle_platform c) (cycle_session c) (cycle_uri c) = Ret (ds, None)
    /\ cycle_Notify c (cycle_uri c) ds = None.

(** A notification is the one of a cycle: its URI is the request and its
    diagnostics are what [lint] returned for it. *)
Definition publishedFor (c : Cycle) (p : DocumentURI * list Diagnostic.t) : Prop :=
  fst p = cycle_uri c
  /\ lint (cycle_platform c) (cycle_session c) (cycle_uri c) = Ret (snd p, None).

Lemma linter_step (c : Cycle) (rest : list Cycle) (ds : list Diagnostic.t) :
  lint (cycle_platform c) (cycle_session c) (cycle_uri c) = Ret (ds, None) ->
  cycle_Notify c (cycle_uri c) ds = None ->
  linter (c :: rest)
  = ((cycle_uri c, ds) :: fst (linter rest), snd (linter rest)).
Proof.
  intros Hl Hn. cbn. rewrite Hl, Hn. now destruct (linter rest).
Qed.

Lemma linter_all_through (received : list Cycle) :
  Forall goesThrough received ->
  snd (linter received) = ChannelClosed
  /\ Forall2 publishedFor received (fst (linter received)).
Proof.
  induction 1 as [|c rest (ds & Hl & Hn) _ [IHend IH]].
  - cbn. auto.
  - rewrite (linter_step c rest Hl Hn). cbn. split; [exact IHend|].
    constructor; [|exact IH]. split; [reflexivity | exact Hl].
Qed.

Lemma linter_through_prefix (before rest : list Cycle) :
  Forall goesThrough before ->
  exists published,
    Forall2 publishedFor before published
    /\ linter (before ++ rest)%list
       = ((published ++ fst (linter rest))%list, snd (linter rest)).
Proof.
  induction 1 as [|c before (ds & Hl & Hn) _ (published & IH2 & IH)].
  - exists []. split; [constructor|]. cbn. now destruct (linter rest).
  - exists ((cycle_uri c, ds) :: published). split.
    + constructor; [split; [reflexivity | exact Hl] | exact IH2].
    + change ((c :: before) ++ rest)%list with (c :: (before ++ rest))%list.
      rewrite (linter_step c (before ++ rest) Hl Hn), IH. reflexivity.
Qed.

Lemma Forall2_publishedFor_uris (cs : list Cycle)
    (ps : list (DocumentURI * list Diagnostic.t)) :
  Forall2 publishedFor cs ps -> map fst ps = map cycle_uri cs.
Proof.
  induction 1 as [|c p cs ps [Hu _] _ IH]; cbn; [reflexivity|].
  now rewrite Hu, IH.
Qed.

(** X11.  When every cycle goes through, the worker delivers one
    notification for each request it received, in the order in which it
    received them, each with the URI of its request and the diagnostics
    [lint] returned for it, and it ends when the channel is closed. *)
Theorem linter_publishes_each_request (received : list Cycle) :
  Forall goesThrough received ->
  exists published,
    linter received = (published, ChannelClosed)
    /\ Forall2 publishedFor received published
    /\ map fst published = map cycle_uri received.
Proof.
  intros H. destruct (linter_all_through H) as [Hend Hp].
  exists (fst (linter received)). split; [|split].
  - rewrite <- Hend. now destruct (linter received).
  - exact Hp.
  - now apply Forall2_publishedFor_uris.
Qed.

(** X12.  In every run, what the worker has delivered answers a prefix
    of the requests it received, one notification for one request and in
    their order; and if the run ended with the closing of the channel,
    the prefix is all of them. *)
Theorem linter_published_is_prefix (received : list Cycle) :
  exists handled pending,
    received = (handled ++ pending)%list
    /\ Forall2 publishedFor handled (fst (linter received))
    /\ (snd (linter received) = ChannelClosed -> pending = []).
Proof.
  induction received as [|c rest (handled & pending & E & Hp & Hend)].
  - exists [], []. cbn. repeat split; auto.
  - cbn.
    destruct (lint (cycle_platform c) (cycle_session c) (cycle_uri c))
      as [[ds [e|]]|reason] eqn:Hl.
    + exists [], (c :: rest). cbn. repeat split; [constructor | discriminate].
    + destruct (cycle_Notify c (cycle_uri c) ds) eqn:Hn.
      * exists [], (c :: rest). cbn. repeat split; [constructor | discriminate].
      * destruct (linter rest) as [published ending]. cbn in *.
        exists (c :: handled), pending. split; [now rewrite E|]. split.
        -- constructor; [split; [reflexivity | exact Hl] | exact Hp].
        -- exact Hend.
    + exists [], (c :: rest). cbn. repeat split; [constructor | discriminate].
Qed.

(** X13.  A notification that cannot be delivered is fatal: the worker
    exits at that request, having delivered the notifications of the
    requests before it and none after. *)
Theorem linter_stops_at_notify_failure
    (before after : list Cycle) (c : Cycle) (ds : list Diagnostic.t) (e : error) :
  Forall goesThrough before ->
  lint (cycle_platform c) (cycle_session c) (cycle_uri c) = Ret (ds, None) ->
  cycle_Notify c (cycle_uri c) ds = Some e ->
  exists published,
    linter (before ++ c :: after)%list = (published, FatalExit "notify")
    /\ Forall2 publishedFor before published.
Proof.
  intros Hb Hl Hn.
  destruct (linter_through_prefix (c :: after) Hb) as (published & Hp & E).
  exists published. split; [|exact Hp].
  rewrite E. cbn. rewrite Hl, Hn. cbn. now rewrite app_nil_r.
Qed.

(** X14.  The worker never exits on the error of [lint]: the only fatal
    exit of a run is the one of a failed notification. *)
Theorem linter_fatal_only_on_notify (received : list Cycle) (msg : string) :
  snd (linter received) = FatalExit msg -> msg = "notify"%string.
Proof.
  induction received as [|c rest IH]; cbn; [discriminate|].
  destruct (lint (cycle_platform c) (cycle_session c) (cycle_uri c))
    as [[ds [e|]]|reason] eqn:Hl.
  - exfalso. unfold lint in Hl.
    destruct (lint_cmd (cycle_platform c) (cycle_session c) (cycle_uri c))
      as [[cmd file]|]; cbn in Hl; [|discriminate].
    destruct (cmd_Output (cycle_platform c) cmd) as [b err].
    apply lint_output_error_nil in Hl. discriminate.
  - destruct (cycle_Notify c (cycle_uri c) ds).
    + cbn. intros H. now injection H.
    + destruct (linter rest). exact IH.
  - discriminate.
Qed.

(** X15.  A failure of the process is not fatal to the worker: with
    nothing on standard output and an error of the process, the worker
    delivers the one diagnostic of the failure and goes on with the
    requests that follow. *)
Theorem linter_survives_process_failure
    (c : Cycle) (rest : list Cycle) (cmd : Cmd) (file : string) (e : error) :
  lint_cmd (cycle_platform c) (cycle_session c) (cycle_uri c) = Ret (cmd, file) ->
  cmd_Output (cycle_platform c) cmd = (EmptyString, Some e) ->
  cycle_Notify c (cycle_uri c) [failureDiagnostic (capturedText e)] = None ->
  linter (c :: rest)
  = ((cycle_uri c, [failureDiagnostic (capturedText e)]) :: fst (linter rest),
     snd (linter rest)).
Proof.
  intros Hc Ho Hn. apply linter_step; [|exact Hn].
  rewrite (@lint_unfold _ _ _ _ _ _ _ Hc Ho).
  unfold lint_output. cbn [String.length Nat.eqb].
  rewrite errToDiagnostics_Some. reflexivity.
Qed.

(** X16.  A process that exits with status 0 and prints nothing takes
    the worker down: the panic of [lint] ends the run at that request,
    and neither it nor any request after it is answered. *)
Theorem linter_crashes_on_silent_process
    (before after : list Cycle) (c : Cycle) (cmd : Cmd) (file : string) :
  Forall goesThrough before ->
  lint_cmd (cycle_platform c) (cycle_session c) (cycle_uri c) = Ret (cmd, file) ->
  cmd_Output (cycle_platform c) cmd = (EmptyString, None) ->
  exists published reason,
    linter (before ++ c :: after)%list = (published, WorkerPanic reason)
    /\ Forall2 publishedFor before published.
Proof.
  intros Hb Hc Ho.
  destruct (linter_through_prefix (c :: after) Hb) as (published & Hp & E).
  exists published. rewrite E. cbn.
  rewrite (@lint_unfold _ _ _ _ _ _ _ Hc Ho). cbn.
  eexists. split; [|exact Hp]. now rewrite app_nil_r.
Qed.

(* ================================================================== *)
(** ** Properties of the request channel *)

(** The URIs a list of calls submits, in the order of the calls. *)
Fixpoint submissions (calls : list Call) : list DocumentURI :=
  match calls with
  | [] => []
  | call :: rest =>
      match submitted call with
      | Some u => u :: submissions rest
      | None => submissions rest
      end
  end.

Lemma serve_document_call (ch : Chan) (call : Call) (u : DocumentURI) :
  submitted call = Some u ->
  serve ch call = ' (ch', _) <- DidOpenTextDocument ch u ;; Ret (ch', None).
Proof.
  destruct call; cbn; intros H; try discriminate; injection H as ->;
    unfold DidOpenTextDocument, DidSaveTextDocument, WillSaveTextDocument,
      DidChangeTextDocument; destruct (chan_send ch u); reflexivity.
Qed.

Lemma serveAll_documents (calls : list Call) :
  Forall (fun call => submitted call <> None) calls ->
  forall ch, chan_closed ch = false ->
    serveAll ch calls
    = Ret {| chan_closed := false;
             chan_sent := (chan_sent ch ++ submissions calls)%list |}.
Proof.
  induction 1 as [|call rest Hc _ IH]; intros ch Hopen.
  - cbn. rewrite app_nil_r. destruct ch; cbn in *. now subst.
  - destruct (submitted call) as [u|] eqn:Hs; [|congruence].
    cbn [serveAll submissions]. rewrite (serve_document_call ch call Hs), Hs.
    unfold DidOpenTextDocument, chan_send. rewrite Hopen. cbn.
    rewrite IH by reflexivity. cbn. now rewrite <- app_assoc.
Qed.


(** X17.  Document events before any shutdown: on an open channel each
    of the four handlers sends the URI of its document and returns a nil
    error, so every event of the list returns nil, and the worker is
    handed the URIs of the events, one for each event and in the order of
    the events, repeated URIs included. *)
Theorem serveAll_hands_over_in_order (calls : list Call) :
  Forall (fun call => submitted call <> None) calls ->
  (forall ch u, chan_closed ch = false ->
     let ch' := {| chan_closed := false; chan_sent := (chan_sent ch ++ [u])%list |} in
     DidOpenTextDocument ch u = Ret (ch', None)
     /\ DidSaveTextDocument ch u = Ret (ch', None)
     /\ WillSaveTextDocument ch u = Ret (ch', None)
     /\ DidChangeTextDocument ch u = Ret (ch', None))
  /\ Forall (fun call =>
              forall ch, chan_closed ch = false ->
                exists ch', serve ch call = Ret (ch', None)
                            /\ chan_closed ch' = false) calls
  /\ exists ch,
       serveAll newRequest calls = Ret ch
       /\ chan_closed ch = false
       /\ map Some (chan_sent ch) = map submitted calls
       /\ List.length (chan_sent ch) = List.length calls.
Proof.
  intros H. split; [|split].
  - intros ch u Hopen. cbv zeta.
    unfold DidOpenTextDocument, DidSaveTextDocument, WillSaveTextDocument,
      DidChangeTextDocument, chan_send.
    rewrite Hopen. cbn. repeat split.
  - apply Forall_forall. intros call Hin ch Hopen.
    rewrite Forall_forall in H. specialize (H call Hin).
    destruct call as [u|u|u|u|]; cbn in H; [| | | |congruence]; cbn;
      unfold DidOpenTextDocument, DidSaveTextDocument, WillSaveTextDocument,
        DidChangeTextDocument, chan_send;
      rewrite Hopen; cbn; eexists; split; reflexivity.
  - rewrite (serveAll_documents H newRequest eq_refl). cbn.
    eexists. split; [reflexivity|]. cbn. split; [reflexivity|].
    assert (E : map Some (submissions calls) = map submitted calls).
    { clear -H. induction H as [|call rest Hc _ IH]; cbn; [reflexivity|].
      destruct (submitted call); [|congruence]. cbn. now rewrite IH. }
    split; [exact E|].
    rewrite <- (length_map Some), E. apply length_map.
Qed.


(** X19.  From the events to the notifications: when the calls are
    document events, the worker receives what the handlers sent, and
    every cycle goes through, the notifications are for the documents of
    the events, one for each event and in the order of the events. *)
Theorem events_are_answered_in_order
    (calls : list Call) (ch : Chan) (received : list Cycle) :
  Forall (fun call => submitted call <> None) calls ->
  serveAll newRequest calls = Ret ch ->
  map cycle_uri received = chan_sent ch ->
  Forall goesThrough received ->
  map Some (map fst (fst (linter received))) = map submitted calls
  /\ snd (linter received) = ChannelClosed.
Proof.
  intros Hcalls Hs Hr Hg.
  rewrite (serveAll_documents Hcalls newRequest eq_refl) in Hs.
  injection Hs as <-. cbn in Hr.
  destruct (linter_all_through Hg) as [Hend Hp].
  split; [|exact Hend].
  rewrite (Forall2_publishedFor_uris Hp), Hr.
  clear -Hcalls. induction Hcalls as [|call rest Hc _ IH]; cbn; [reflexivity|].
  destruct (submitted call); [|congruence]. cbn. now rewrite IH.
Qed.

(* ================================================================== *)
(** ** Properties of the streams *)

Lemma File_Close_closes (close_error : File -> option error) (file : File)
    (w : Files) :
  is_closed (fst (File_Close close_error (Some file) w)) file = true.
Proof.
  unfold File_Close. destruct (is_closed w file) eqn:E; cbn; [exact E|].
  destruct file; reflexivity.
Qed.

Lemma File_Close_keeps_closed (close_error : File -> option error)
    (f' : option File) (file : File) (w : Files) :
  is_closed w file = true ->
  is_closed (fst (File_Close close_error f' w)) file = true.
Proof.
  intros H. unfold File_Close. destruct f' as [g|]; [|exact H].
  destruct (is_closed w g); cbn; [exact H|].
  destruct g, file; cbn in *; auto.
Qed.

Lemma stdrwc_Close_closes_Stdin (close_error : File -> option error) (w : Files) :
  is_closed (fst (stdrwc_Close close_error w)) Stdin = true.
Proof.
  unfold stdrwc_Close.
  pose proof (File_Close_closes close_error Stdin w) as H.
  destruct (File_Close close_error (Some Stdin) w) as [w1 [e|]];
    cbv beta iota zeta; [exact H|].
  apply File_Close_keeps_closed. exact H.
Qed.

Lemma stdrwc_Close_again (close_error : File -> option error) (w : Files) :
  is_closed w Stdin = true ->
  stdrwc_Close close_error w = (w, Some ErrClosed).
Proof.
  intros H. unfold stdrwc_Close, File_Close. now rewrite H.
Qed.

(** X20.  [stdrwc.Close] stops at the first error: when standard input
    is closed already or its close fails, the error is returned and
    standard output is left as it was; standard output is closed only
    after a close of standard input that returned no error.  Standard
    input is closed after the call in every case. *)
Theorem stdrwc_Close_stops_at_first_error
    (close_error : File -> option error) (w : Files) :
  is_closed (fst (stdrwc_Close close_error w)) Stdin = true
  /\ (is_closed w Stdin = true ->
      stdrwc_Close close_error w = (w, Some ErrClosed))
  /\ (forall e, is_closed w Stdin = false -> close_error Stdin = Some e ->
      stdrwc_Close close_error w = (set_closed w Stdin, Some e)
      /\ is_closed (set_closed w Stdin) Stdout = is_closed w Stdout)
  /\ (snd (stdrwc_Close close_error w) = None <->
      is_closed w Stdin = false /\ is_closed w Stdout = false
      /\ close_error Stdin = None /\ close_error Stdout = None).
Proof.
  split; [apply stdrwc_Close_closes_Stdin|].
  split; [apply stdrwc_Close_again|]. split.
  - intros e Hin He. unfold stdrwc_Close, File_Close. rewrite Hin, He.
    split; reflexivity.
  - unfold stdrwc_Close, File_Close. destruct w as [i o l]; cbn.
    destruct i; cbn; [split; [discriminate | intros [H _]; discriminate]|].
    destruct (close_error Stdin); cbn;
      [split; [discriminate | intros (_ & _ & H & _); discriminate]|].
    destruct o; cbn; [split; [discriminate | intros (_ & H & _); discriminate]|].
    destruct (close_error Stdout); cbn; split; auto;
      try discriminate; intros (_ & _ & _ & H); discriminate.
Qed.

Lemma errors_Join_nil (errs : list (option error)) :
  errors_Join errs = None <-> Forall (fun e => e = None) errs.
Proof.
  unfold errors_Join. induction errs as [|[e|] errs IH]; cbn.
  - split; auto.
  - split; [discriminate | intros H; inversion H; discriminate].
  - rewrite IH. split; [auto | intros H; now inversion H].
Qed.

(** X21.  [readWriteCloser.Close] makes its three calls whatever each
    of them returns: the log file is closed afterwards even when closing
    the reader or the writer failed, and the result is nil exactly when
    each of the three calls returned nil.  Without a log file the result
    is never nil. *)
Theorem readWriteCloser_Close_closes_all
    (close_error : File -> option error) (r : readWriteCloser) (w : Files) :
  let first := readCloser r w in
  let second := writeCloser r (fst first) in
  let third := File_Close close_error (f r) (fst second) in
  let closed := readWriteCloser_Close close_error r w in
  fst closed = fst third
  /\ (snd closed = None <->
      snd first = None /\ snd second = None /\ snd third = None)
  /\ (forall file, f r = Some file -> is_closed (fst closed) file = true)
  /\ (f r = None -> snd closed <> None).
Proof.
  cbv zeta. unfold readWriteCloser_Close.
  destruct (readCloser r w) as [w1 e1]. cbn [fst snd].
  destruct (writeCloser r w1) as [w2 e2]. cbn [fst snd].
  destruct (File_Close close_error (f r) w2) as [w3 e3] eqn:Hf. cbn [fst snd].
  split; [reflexivity|]. split; [|split].
  - rewrite errors_Join_nil. split.
    + intros H. inversion H as [|? ? Ha H']. inversion H' as [|? ? Hb H''].
      inversion H'' as [|? ? Hc _]. auto.
    + intros (-> & -> & ->). repeat constructor.
  - intros file E. rewrite E in Hf.
    pose proof (File_Close_closes close_error file w2) as H.
    now rewrite Hf in H.
  - intros E. rewrite E in Hf. cbn in Hf. injection Hf as _ <-.
    rewrite errors_Join_nil. intros H. inversion H as [|? ? _ H'].
    inversion H' as [|? ? _ H'']. inversion H'' as [|? ? Hc _]. discriminate.
Qed.

(** X22.  The stream [run] builds closes its one [stdrwc] twice, as the
    reader and as the writer: the second close finds standard input
    closed, so closing the stream returns an error in every case, also
    when no close of a file fails. *)
Theorem runStream_Close_always_errors
    (close_error : File -> option error) (w : Files) :
  snd (readWriteCloser_Close close_error (runStream close_error) w) <> None
  /\ is_closed (fst (readWriteCloser_Close close_error (runStream close_error) w)) Stdin
     = true
  /\ is_closed (fst (readWriteCloser_Close close_error (runStream close_error) w)) LogFile
     = true.
Proof.
  unfold readWriteCloser_Close, runStream. cbn [readCloser writeCloser f].
  pose proof (stdrwc_Close_closes_Stdin close_error w) as H1.
  destruct (stdrwc_Close close_error w) as [w1 e1]. cbn in H1.
  rewrite (stdrwc_Close_again close_error w1 H1).
  pose proof (File_Close_closes close_error LogFile w1) as H3.
  pose proof (File_Close_keeps_closed close_error (Some LogFile) Stdin w1 H1) as H4.
  destruct (File_Close close_error (Some LogFile) w1) as [w3 e3]. cbn in *.
  split; [|split; assumption].
  rewrite errors_Join_nil. intros H. inversion H as [|? ? _ H'].
  inversion H' as [|? ? Hb _]. discriminate.
Qed.

(* ================================================================== *)
(** ** The further properties on the scenarios *)

Module ScenarioFurther.

Import Scenario.
#[local] Open Scope string_scope.

Definition delivered (u : DocumentURI) (ds : list Diagnostic.t) : option error :=
  None.

Definition undeliverable (u : DocumentURI) (ds : list Diagnostic.t) : option error :=
  Some (OtherError "write: broken pipe").

Definition cycle (output : string * option error)
    (notify : DocumentURI -> list Diagnostic.t -> option error) : Cycle :=
  {| cycle_uri := a_go;
     cycle_session := session;
     cycle_platform := platform output "report" result;
     cycle_Notify := notify |}.

Definition proj : WorkspaceFolder.t :=
  {| WorkspaceFolder.URI := "file:///proj"; WorkspaceFolder.Name := "proj" |}.

Lemma cycle_goesThrough_found : goesThrough (cycle found delivered).
Proof. eexists. split; reflexivity. Qed.

Lemma cycle_goesThrough_failed : goesThrough (cycle failed delivered).
Proof. eexists. split; reflexivity. Qed.

Lemma lint_never_returns_error_on_scenario :
  lint (platform failed "report" result) session a_go
  = Ret ([failureDiagnostic "config error: no .golangci.yml"], None)
  /\ @None error = None.
Proof.
  split; [reflexivity|].
  exact (@lint_never_returns_error (platform failed "report" result) session a_go
           [failureDiagnostic "config error: no .golangci.yml"] None eq_refl).
Defined.

Lemma lint_issues_sound_on_scenario :
  exists issue,
    In issue (Result.Issues result)
    /\ Pos.Filename (Issue.Pos issue) = "pkg/a.go"
    /\ Diagnostic.Source (unusedVar 9 2) = Issue.FromLinter issue
    /\ Diagnostic.Message (unusedVar 9 2) =
         (if noLinterName session then Issue.Text issue
          else Issue.FromLinter issue ++ ": " ++ Issue.Text issue)
    /\ Diagnostic.Severity (unusedVar 9 2) =
         SeverityFromString (platform found "report" result) session
           (Issue.Severity issue)
    /\ Range.Start (Diagnostic.Range (unusedVar 9 2))
       = Range.End (Diagnostic.Range (unusedVar 9 2)).
Proof.
  apply (@lint_issues_sound (platform found "report" result) session "pkg/a.go"
           (Result.Issues result) (unusedVar 9 2)).
  left. reflexivity.
Defined.

Lemma lint_cmd_result_spells_path_on_scenario :
  Args command_a = ["lint"; "--format"; "json"; "/proj/pkg/"]
  /\ ("/proj/pkg/a.go" = Dir command_a ++ "pkg/a.go"
      \/ exists c, "/proj/pkg/a.go" = Dir command_a ++ String c "pkg/a.go").
Proof.
  exact (@lint_cmd_result_spells_path (platform found "report" result) session a_go
           "/proj/pkg/a.go" command_a "pkg/a.go" eq_refl eq_refl).
Defined.

Lemma lint_cmd_under_prefix_on_scenario :
  ("/proj/pkg/a.go" = "/proj"
   /\ panics (lint_cmd (platform found "report" result) session a_go))
  \/ (exists c rest cmd,
        "/proj/pkg/a.go" = "/proj" ++ String c rest
        /\ lint_cmd (platform found "report" result) session a_go = Ret (cmd, rest)
        /\ Dir cmd = "/proj").
Proof.
  exact (@lint_cmd_under_prefix (platform found "report" result) session a_go
           "/proj/pkg/a.go" "/proj" "lint" ["--format"; "json"]
           eq_refl eq_refl eq_refl eq_refl).
Defined.

Lemma lint_before_Initialize_panics_on_scenario :
  panics (lint (platform found "report" result) (NewServer false) a_go).
Proof.
  exact (@lint_before_Initialize_panics (platform found "report" result) false a_go
           "/proj/pkg/a.go" eq_refl).
Defined.

Lemma SeverityFromString_ignores_case_on_scenario :
  SeverityFromString (platform found "report" result) session "Hint"
  = SeverityFromString (platform found "report" result) session "hINT".
Proof.
  exact (@SeverityFromString_ignores_case (platform found "report" result) session
           "Hint" "hINT" eq_refl eq_refl eq_refl).
Defined.

Lemma Initialize_keeps_earlier_command_on_scenario :
  exists h' r,
    Initialize session (paramsOf [proj] []) = Ret (h', r)
    /\ command h' = Some ["lint"; "--format"; "json"].
Proof.
  apply (@Initialize_keeps_earlier_command session ["lint"; "--format"; "json"]
           proj [] [] eq_refl).
  intros l. discriminate.
Defined.

Lemma Initialize_result_invariant_on_scenario :
  command session <> None
  /\ noLinterName session = noLinterName (NewServer false)
  /\ (exists folder folders,
        InitializeParams.WorkspaceFolders
          (paramsOf [proj] [("command", any_strings (Some ["lint"; "--format"; "json"]))])
        = folder :: folders
        /\ rootURI session = WorkspaceFolder.URI folder
        /\ rootDir session = WorkspaceFolder.URI folder)
  /\ rootURI session = rootDir session.
Proof.
  exact (@Initialize_result_invariant (NewServer false) session
           (paramsOf [proj] [("command", any_strings (Some ["lint"; "--format"; "json"]))])
           _ eq_refl).
Defined.

Lemma Initialize_empty_command_breaks_lint_on_scenario :
  exists h' r,
    Initialize (NewServer false) (paramsOf [proj] [("command", any_strings (Some []))])
    = Ret (h', r)
    /\ command h' = Some []
    /\ panics (lint (platform found "report" result) h' a_go).
Proof.
  exact (@Initialize_empty_command_breaks_lint (platform found "report" result) false
           proj [] [("command", any_strings (Some []))] a_go "/proj/pkg/a.go"
           eq_refl eq_refl).
Defined.

Lemma Initialize_default_command_line_on_scenario :
  exists h' r,
    Initialize (NewServer false) (paramsOf [proj] []) = Ret (h', r)
    /\ forall cmd file,
         lint_cmd (platform found "report" result) h' a_go = Ret (cmd, file) ->
         Args cmd = ["golangci-lint"; "run"; "--out-format"; "json"; "/proj/pkg/"].
Proof.
  apply (@Initialize_default_command_line (platform found "report" result) false
           proj [] [] a_go "/proj/pkg/a.go"); [|reflexivity].
  intros supplied. discriminate.
Defined.

Lemma linter_publishes_each_request_on_scenario :
  exists published,
    linter [cycle found delivered; cycle failed delivered]
    = (published, ChannelClosed)
    /\ Forall2 publishedFor [cycle found delivered; cycle failed delivered] published
    /\ map fst published = [a_go; a_go].
Proof.
  apply (@linter_publishes_each_request [cycle found delivered; cycle failed delivered]).
  repeat constructor;
    [exact cycle_goesThrough_found | exact cycle_goesThrough_failed].
Defined.

Lemma linter_stops_at_notify_failure_on_scenario :
  exists published,
    linter ([cycle found delivered] ++ cycle found undeliverable :: [cycle found delivered])
    = (published, FatalExit "notify")
    /\ Forall2 publishedFor [cycle found delivered] published.
Proof.
  apply (@linter_stops_at_notify_failure [cycle found delivered]
           [cycle found delivered] (cycle found undeliverable)
           [unusedVar 9 2; unusedVar 0 0] (OtherError "write: broken pipe")).
  - repeat constructor. exact cycle_goesThrough_found.
  - reflexivity.
  - reflexivity.
Defined.

Lemma linter_fatal_only_on_notify_on_scenario :
  snd (linter [cycle found undeliverable]) = FatalExit "notify"
  /\ "notify" = "notify".
Proof.
  split; [reflexivity|].
  exact (@linter_fatal_only_on_notify [cycle found undeliverable] "notify" eq_refl).
Defined.

Lemma linter_survives_process_failure_on_scenario :
  linter (cycle failed delivered :: [cycle found delivered])
  = ((a_go, [failureDiagnostic "config error: no .golangci.yml"])
       :: fst (linter [cycle found delivered]),
     snd (linter [cycle found delivered])).
Proof.
  exact (@linter_survives_process_failure (cycle failed delivered)
           [cycle found delivered] command_a "pkg/a.go"
           (ExitError "config error: no .golangci.yml" "exit status 2")
           eq_refl eq_refl eq_refl).
Defined.

Lemma linter_crashes_on_silent_process_on_scenario :
  exists published reason,
    linter ([cycle found delivered] ++ cycle silent delivered :: [cycle found delivered])
    = (published, WorkerPanic reason)
    /\ Forall2 publishedFor [cycle found delivered] published.
Proof.
  apply (@linter_crashes_on_silent_process [cycle found delivered]
           [cycle found delivered] (cycle silent delivered) command_a "pkg/a.go").
  - repeat constructor. exact cycle_goesThrough_found.
  - reflexivity.
  - reflexivity.
Defined.

Lemma serveAll_hands_over_in_order_on_scenario :
  exists ch,
    serveAll newRequest [CallDidOpen a_go; CallDidChange a_go; CallDidSave a_go]
    = Ret ch
    /\ chan_closed ch = false
    /\ map Some (chan_sent ch) = [Some a_go; Some a_go; Some a_go]
    /\ List.length (chan_sent ch) = 3.
Proof.
  apply (proj2 (proj2 (@serveAll_hands_over_in_order
           [CallDidOpen a_go; CallDidChange a_go; CallDidSave a_go]
           ltac:(repeat constructor; discriminate)))).
Defined.

Lemma events_are_answered_in_order_on_scenario :
  map Some (map fst (fst (linter [cycle found delivered; cycle failed delivered])))
  = [Some a_go; Some a_go]
  /\ snd (linter [cycle found delivered; cycle failed delivered]) = ChannelClosed.
Proof.
  apply (@events_are_answered_in_order [CallDidOpen a_go; CallDidSave a_go]
           {| chan_closed := false; chan_sent := [a_go; a_go] |}
           [cycle found delivered; cycle failed delivered]).
  - repeat constructor; discriminate.
  - reflexivity.
  - reflexivity.
  - repeat constructor;
      [exact cycle_goesThrough_found | exact cycle_goesThrough_failed].
Defined.

End ScenarioFurther.
